(** * Streaming transcript coordinator of [components/messages.tsx]

    A shallow embedding of the derived-status computations, the retry
    handler and the two debounced scroll timers of the [Messages]
    component, with the properties its specification states about them. *)

From stdpp Require Import base option list strings gmap.
From Stdlib Require Import ZArith NArith Lia.

Local Open Scope string_scope.
Local Open Scope Z_scope.
Local Open Scope list_scope.

(** ** Data model *)

(** [message.role]: the two displayed roles and the one the filter of
    [memoizedMessages] drops. *)
Inductive Role := User | Assistant | System.

(** [UseChatHelpers['status']]: 'submitted' | 'streaming' | 'ready' | 'error'. *)
Inductive Status := Submitted | Streaming | Ready | Errored.

Definition Role_eqb (a b : Role) : bool :=
  match a, b with
  | User, User | Assistant, Assistant | System, System => true
  | _, _ => false
  end.

Definition Status_eqb (a b : Status) : bool :=
  match a, b with
  | Submitted, Submitted | Streaming, Streaming
  | Ready, Ready | Errored, Errored => true
  | _, _ => false
  end.

(** A text payload is a JavaScript string: a sequence of UTF-16 code units. *)
Definition js_text := list N.

(** One part of a turn: its [type] tag and, when present, its [text]. *)
Record Part := mkPart { part_type : string; part_text : option js_text }.

(** [ChatMessage]: [id], [role], [parts]. *)
Record ChatMessage := mkMessage {
  msg_id : string;
  msg_role : Role;
  msg_parts : list Part
}.

(** ** JavaScript helpers *)

(** [arr[i]] for a numeric index: [undefined] out of range. *)
Definition js_index {A} (arr : list A) (i : Z) : option A :=
  if i <? 0 then None else arr !! Z.to_nat i.

(** [arr.length] *)
Definition js_length {A} (arr : list A) : Z := Z.of_nat (length arr).

(** [arr.some(p)] *)
Definition some {A} (p : A -> bool) (arr : list A) : bool := existsb p arr.

(** [arr.some((x, i) => p x i)], the index counted from [i0]. *)
Fixpoint some_from {A} (p : A -> Z -> bool) (i0 : Z) (arr : list A) : bool :=
  match arr with
  | [] => false
  | x :: rest => p x i0 || some_from p (i0 + 1) rest
  end.

(** [arr.findLast(p)] *)
Fixpoint findLast {A} (p : A -> bool) (arr : list A) : option A :=
  match arr with
  | [] => None
  | x :: rest =>
      match findLast p rest with
      | Some y => Some y
      | None => if p x then Some x else None
      end
  end.

(** Truthiness of a value that is an object or [null]/[undefined]. *)
Definition isSet {A} (x : option A) : bool :=
  match x with Some _ => true | None => false end.

(** [s.startsWith(pre)] *)
Definition startsWith (s pre : string) : bool := String.prefix pre s.

(** White space and line terminators of ECMAScript, as code units: what
    [String.prototype.trim] strips. *)
Definition is_js_whitespace (c : N) : bool :=
  ((9 <=? c) && (c <=? 13) || (c =? 32) || (c =? 160) || (c =? 5760)
   || (8192 <=? c) && (c <=? 8202) || (c =? 8232) || (c =? 8233)
   || (c =? 8239) || (c =? 8287) || (c =? 12288) || (c =? 65279))%N.

Fixpoint trimStart (s : js_text) : js_text :=
  match s with
  | [] => []
  | c :: rest => if is_js_whitespace c then trimStart rest else s
  end.

(** [s.trim()] *)
Definition trim (s : js_text) : js_text :=
  rev (trimStart (rev (trimStart s))).

(** [s !== ''] *)
Definition js_nonempty (s : js_text) : bool :=
  match s with [] => false | _ :: _ => true end.

(** ** Derived status (lines 78-286) *)

(** The filter of [memoizedMessages]: user and assistant turns are kept. *)
Definition keepMessage (message : ChatMessage) : bool :=
  if Role_eqb (msg_role message) User then true
  else if Role_eqb (msg_role message) Assistant then true
  else false.

Definition memoizedMessages (messages : list ChatMessage) : list ChatMessage :=
  List.filter keepMessage messages.

(** [memoizedMessages[memoizedMessages.length - 1]] *)
Definition lastMessageOf (memoized : list ChatMessage) : option ChatMessage :=
  js_index memoized (js_length memoized - 1).

(** [lastMessage?.role === r] *)
Definition roleIs (lastMessage : option ChatMessage) (r : Role) : bool :=
  match lastMessage with
  | Some m => Role_eqb (msg_role m) r
  | None => false
  end.

(** [part.type.startsWith('tool-')] *)
Definition isToolPart (part : Part) : bool := startsWith (part_type part) "tool-".

(** [part.type === 'text' && part.text && part.text.trim() !== ''] *)
Definition isVisibleTextPart (part : Part) : bool :=
  String.eqb (part_type part) "text"
  && match part_text part with
     | Some t => js_nonempty t && js_nonempty (trim t)
     | None => false
     end.

Definition hasActiveToolInvocations (messages : list ChatMessage) (status : Status) : bool :=
  let lastMessage := lastMessageOf (memoizedMessages messages) in
  if Status_eqb status Streaming && roleIs lastMessage Assistant then
    match lastMessage with
    | Some m => some isToolPart (msg_parts m)
    | None => false
    end
  else false.

Section WithError.
(** The [Error] values of [useChat] are opaque here. *)
Context {Err : Type}.

Definition isMissingAssistantResponse
    (messages : list ChatMessage) (status : Status) (error : option Err) : bool :=
  let lastMessage := lastMessageOf (memoizedMessages messages) in
  if roleIs lastMessage User && Status_eqb status Ready && negb (isSet error)
  then true
  else
    if roleIs lastMessage Assistant && Status_eqb status Ready && negb (isSet error)
    then
      let parts := match lastMessage with Some m => msg_parts m | None => [] end in
      let hasVisibleText := some isVisibleTextPart parts in
      let hasToolInvocations := some isToolPart parts in
      let hasVisibleContent := hasVisibleText || hasToolInvocations in
      if negb hasVisibleContent then true else false
    else false.
End WithError.

(** [lastMessage.parts?.length || 0] *)
Definition partsCountOf (lastMessage : option ChatMessage) : Z :=
  match lastMessage with
  | Some m => js_length (msg_parts m)
  | None => 0
  end.

Definition shouldShowLoading (messages : list ChatMessage) (status : Status) : bool :=
  if Status_eqb status Submitted then true
  else
    if Status_eqb status Streaming then
      let lastMessage := lastMessageOf (memoizedMessages messages) in
      if roleIs lastMessage User then true
      else if roleIs lastMessage Assistant then partsCountOf lastMessage <=? 1
      else false
    else false.

(** The loop of [lastAssistantIndex]; [n] is [i + 1]. *)
Fixpoint lastAssistantIndex_from (memoized : list ChatMessage) (n : nat) : Z :=
  match n with
  | O => -1
  | S i =>
      if roleIs (js_index memoized (Z.of_nat i)) Assistant then Z.of_nat i
      else lastAssistantIndex_from memoized i
  end.

Definition lastAssistantIndex (messages : list ChatMessage) : Z :=
  let memoized := memoizedMessages messages in
  lastAssistantIndex_from memoized (length memoized).

Definition activeAssistantIndex (messages : list ChatMessage) (status : Status) : Z :=
  let memoized := memoizedMessages messages in
  let lastMessage := lastMessageOf memoized in
  if Status_eqb status Streaming && roleIs lastMessage Assistant
  then js_length memoized - 1
  else -1.

Definition isActiveAssistantSkeleton (messages : list ChatMessage) (status : Status) : bool :=
  let lastMessage := lastMessageOf (memoizedMessages messages) in
  if Status_eqb status Streaming && roleIs lastMessage Assistant
  then partsCountOf lastMessage <=? 1
  else false.

Definition shouldReserveLoaderMinHeight (messages : list ChatMessage) (status : Status) : bool :=
  let lastMessage := lastMessageOf (memoizedMessages messages) in
  if Status_eqb status Submitted then true
  else
    if Status_eqb status Streaming
       && (roleIs lastMessage User || isActiveAssistantSkeleton messages status)
    then true
    else false.

(** The [shouldReduceHeight] prop handed to the turn at [index] (lines 411-423). *)
Definition shouldReduceHeight
    (messages : list ChatMessage) (status : Status)
    (index : nat) (message : ChatMessage) : bool :=
  if Role_eqb (msg_role message) Assistant then
    if Status_eqb status Submitted then true
    else
      if Status_eqb status Streaming then
        if negb (activeAssistantIndex messages status =? -1) then
          if Z.of_nat index =? activeAssistantIndex messages status
          then isActiveAssistantSkeleton messages status
          else true
        else true
      else negb (Z.of_nat index =? lastAssistantIndex messages)
  else false.

(** The component's output (lines 359-469), reduced to what the derived
    status decides: nothing for an empty transcript, else the per-turn
    [shouldReduceHeight] props, the loader with its min-height class, and
    the global error display. *)
Record Rendered := mkRendered {
  r_reduceHeight : list bool;
  r_loader : option bool;
  r_globalError : bool
}.

Definition render {Err : Type}
    (messages : list ChatMessage) (status : Status) (error : option Err)
    : option Rendered :=
  let memoized := memoizedMessages messages in
  if js_length memoized =? 0 then None
  else
    Some {|
      r_reduceHeight :=
        imap (fun index message => shouldReduceHeight messages status index message) memoized;
      r_loader :=
        if shouldShowLoading messages status
        then Some (shouldReserveLoaderMinHeight messages status)
        else None;
      r_globalError :=
        isSet error && negb (roleIs (lastMessageOf memoized) Assistant)
    |}.

(** ** Active reasoning segments (lines 327-338) *)

Record PartInfo := mkPartInfo {
  pi_part : Part;
  messageIndex : Z;
  partIndex : Z
}.

(** [arr.map((x, i) => f x i)], the index counted from [i0]. *)
Fixpoint map_from {A B} (f : A -> Z -> B) (i0 : Z) (arr : list A) : list B :=
  match arr with
  | [] => []
  | x :: rest => f x i0 :: map_from f (i0 + 1) rest
  end.

(** [arr.flatMap((x, i) => f x i)], the index counted from [i0]. *)
Fixpoint flatMap_from {A B} (f : A -> Z -> list B) (i0 : Z) (arr : list A) : list B :=
  match arr with
  | [] => []
  | x :: rest => f x i0 ++ flatMap_from f (i0 + 1) rest
  end.

(** [p.type === 'text' || p.type === 'tool-invocation'] *)
Definition closesReasoning (p : Part) : bool :=
  String.eqb (part_type p) "text" || String.eqb (part_type p) "tool-invocation".

(** The second filter: the turn is looked up again by [messageIndex]; the
    index comes from the enclosing [flatMap], so the lookup never misses. *)
Definition reasoningIncomplete (messages : list ChatMessage) (info : PartInfo) : bool :=
  match js_index messages (messageIndex info) with
  | Some message =>
      negb (some_from (fun p i => (i >? partIndex info) && closesReasoning p)
                      0 (msg_parts message))
  | None => false
  end.

Definition activeReasoning (messages : list ChatMessage) : list PartInfo :=
  flatMap_from
    (fun message messageIndex =>
       List.filter (reasoningIncomplete messages)
         (List.filter (fun info => String.eqb (part_type (pi_part info)) "reasoning")
            (map_from (fun part partIndex => mkPartInfo part messageIndex partIndex)
                      0 (msg_parts message))))
    0 messages.

(** Whether the segment at [partIndex] of one turn is among the active
    reasoning segments: [activeReasoning] on that turn alone. *)
Definition isReasoningActive (turn : ChatMessage) (index : Z) : bool :=
  existsb (fun info => partIndex info =? index) (activeReasoning [turn]).

(** ** Retry handler (lines 138-169) *)

(** Something thrown inside [handleRetry]: a rejected promise of one of
    the two awaited calls. *)
Inductive Thrown := DeleteRejected | RegenerateRejected.

Inductive Outcome := Resolves | Rejects.

(** What the handler acts on: the state behind [setMessages] and
    [setSuggestedQuestions], and the calls it made. *)
Record World := mkWorld {
  w_messages : list ChatMessage;
  w_suggestedQuestions : list string;
  w_deleteCalls : list string;
  w_regenerateCalls : nat;
  w_consoleErrors : list Thrown
}.

(** An async computation: it changes the world and returns or throws. *)
Definition Async (A : Type) : Type := World -> World * (Thrown + A).

#[local] Instance Async_ret : MRet Async := fun A a w => (w, inr a).
#[local] Instance Async_bind : MBind Async := fun A B f m w =>
  match m w with
  | (w', inl e) => (w', inl e)
  | (w', inr a) => f a w'
  end.

(** [try { body } catch (error) { handler error }] *)
Definition tryCatch {A} (body : Async A) (handler : Thrown -> Async A) : Async A :=
  fun w =>
    match body w with
    | (w', inl e) => handler e w'
    | r => r
    end.

(** The loop of step 2: push turns until one carries the id. *)
Fixpoint pushUntil (id : string) (messages : list ChatMessage) : list ChatMessage :=
  match messages with
  | [] => []
  | m :: rest =>
      m :: (if String.eqb (msg_id m) id then [] else pushUntil id rest)
  end.

(** Truthiness of a string: non-empty. *)
Definition js_truthy_string (s : string) : bool := negb (String.eqb s "").

Section Retry.
(** [ComprehensiveUserData] is opaque here. *)
Context {UserData : Type}.
(** The props the handler closes over. *)
Variable messages : list ChatMessage.
Variable user : option UserData.
(** The collaborators: how the promise of each call settles. *)
Variable deleteTrailingMessages_settles : string -> Outcome.
Variable regenerate_settles : Outcome.

Definition deleteTrailingMessages (id : string) : Async unit := fun w =>
  let w' := mkWorld (w_messages w) (w_suggestedQuestions w)
                    (w_deleteCalls w ++ [id]) (w_regenerateCalls w)
                    (w_consoleErrors w) in
  match deleteTrailingMessages_settles id with
  | Resolves => (w', inr ())
  | Rejects => (w', inl DeleteRejected)
  end.

Definition setMessages (newMessages : list ChatMessage) : Async unit := fun w =>
  (mkWorld newMessages (w_suggestedQuestions w) (w_deleteCalls w)
           (w_regenerateCalls w) (w_consoleErrors w), inr ()).

Definition setSuggestedQuestions (questions : list string) : Async unit := fun w =>
  (mkWorld (w_messages w) questions (w_deleteCalls w)
           (w_regenerateCalls w) (w_consoleErrors w), inr ()).

Definition regenerate : Async unit := fun w =>
  let w' := mkWorld (w_messages w) (w_suggestedQuestions w) (w_deleteCalls w)
                    (S (w_regenerateCalls w)) (w_consoleErrors w) in
  match regenerate_settles with
  | Resolves => (w', inr ())
  | Rejects => (w', inl RegenerateRejected)
  end.

(** [console.error('Error in retry:', error)] *)
Definition console_error (error : Thrown) : Async unit := fun w =>
  (mkWorld (w_messages w) (w_suggestedQuestions w) (w_deleteCalls w)
           (w_regenerateCalls w) (w_consoleErrors w ++ [error]), inr ()).

Definition handleRetry : Async unit :=
  tryCatch
    (match findLast (fun m => Role_eqb (msg_role m) User) messages with
     | None => mret ()
     | Some lastUserMessage =>
         (if isSet user && js_truthy_string (msg_id lastUserMessage)
          then deleteTrailingMessages (msg_id lastUserMessage)
          else mret ());;
         let newMessages := pushUntil (msg_id lastUserMessage) messages in
         setMessages newMessages;;
         setSuggestedQuestions [];;
         regenerate
     end)
    (fun error => console_error error).
End Retry.

(** ** Scroll timers (lines 62-76 and 288-357) *)

(** The two callbacks handed to [setTimeout]. The reasoning callback
    closes over the [messages] array of its render, held by reference. *)
Inductive Callback :=
| ScrollToEnd
| ScrollReasoning (messages : nat).

Record Timer := mkTimer {
  t_handle : nat;
  t_due : nat;
  t_callback : Callback
}.

(** The mounted component: its props ([messages], [status],
    [initialMessages]), hook state, refs, the timer queue of the event
    loop and the scrolls performed so far. Arrays live in [v_heap] and
    are named by reference, so that a mutation in place is seen through
    every alias. *)
Record View := mkView {
  v_heap : gmap nat (list ChatMessage);
  v_messages : nat;
  v_status : Status;
  v_initialMessages : option nat;
  v_memoized : list ChatMessage;
  v_hasInitialScrolled : bool;
  v_messagesEndRef : bool;
  v_reasoningScrollRef : bool;
  v_scrollTimeoutRef : option nat;
  v_reasoningScrollTimeoutRef : option nat;
  v_clock : nat;
  v_nextHandle : nat;
  v_timers : list Timer;
  v_smoothScrolls : nat;
  v_instantScrolls : nat;
  v_reasoningScrolls : nat
}.

(** The array behind a reference. *)
Definition deref (heap : gmap nat (list ChatMessage)) (l : nat) : list ChatMessage :=
  default [] (heap !! l).

Definition with_timers (s : View) (timers : list Timer) (next : nat) : View :=
  mkView (v_heap s) (v_messages s) (v_status s) (v_initialMessages s)
         (v_memoized s)
         (v_hasInitialScrolled s) (v_messagesEndRef s) (v_reasoningScrollRef s)
         (v_scrollTimeoutRef s) (v_reasoningScrollTimeoutRef s)
         (v_clock s) next timers
         (v_smoothScrolls s) (v_instantScrolls s) (v_reasoningScrolls s).

Definition with_scrollTimeoutRef (s : View) (r : option nat) : View :=
  mkView (v_heap s) (v_messages s) (v_status s) (v_initialMessages s)
         (v_memoized s)
         (v_hasInitialScrolled s) (v_messagesEndRef s) (v_reasoningScrollRef s)
         r (v_reasoningScrollTimeoutRef s)
         (v_clock s) (v_nextHandle s) (v_timers s)
         (v_smoothScrolls s) (v_instantScrolls s) (v_reasoningScrolls s).

Definition with_reasoningScrollTimeoutRef (s : View) (r : option nat) : View :=
  mkView (v_heap s) (v_messages s) (v_status s) (v_initialMessages s)
         (v_memoized s)
         (v_hasInitialScrolled s) (v_messagesEndRef s) (v_reasoningScrollRef s)
         (v_scrollTimeoutRef s) r
         (v_clock s) (v_nextHandle s) (v_timers s)
         (v_smoothScrolls s) (v_instantScrolls s) (v_reasoningScrolls s).

Definition with_scrolls (s : View) (smooth instant reasoning : nat) : View :=
  mkView (v_heap s) (v_messages s) (v_status s) (v_initialMessages s)
         (v_memoized s)
         (v_hasInitialScrolled s) (v_messagesEndRef s) (v_reasoningScrollRef s)
         (v_scrollTimeoutRef s) (v_reasoningScrollTimeoutRef s)
         (v_clock s) (v_nextHandle s) (v_timers s)
         smooth instant reasoning.

Definition with_hasInitialScrolled (s : View) (b : bool) : View :=
  mkView (v_heap s) (v_messages s) (v_status s) (v_initialMessages s)
         (v_memoized s)
         b (v_messagesEndRef s) (v_reasoningScrollRef s)
         (v_scrollTimeoutRef s) (v_reasoningScrollTimeoutRef s)
         (v_clock s) (v_nextHandle s) (v_timers s)
         (v_smoothScrolls s) (v_instantScrolls s) (v_reasoningScrolls s).

(** [messagesEndRef.current.scrollIntoView({ behavior: 'smooth' })] *)
Definition scrollIntoView_smooth (s : View) : View :=
  with_scrolls s (S (v_smoothScrolls s)) (v_instantScrolls s) (v_reasoningScrolls s).

(** [messagesEndRef.current.scrollIntoView({ behavior: 'instant' })] *)
Definition scrollIntoView_instant (s : View) : View :=
  with_scrolls s (v_smoothScrolls s) (S (v_instantScrolls s)) (v_reasoningScrolls s).

(** [reasoningScrollRef.current.scrollTop = reasoningScrollRef.current.scrollHeight] *)
Definition scrollReasoningToBottom (s : View) : View :=
  with_scrolls s (v_smoothScrolls s) (v_instantScrolls s) (S (v_reasoningScrolls s)).

(** [setTimeout(callback, delay)]: the new handle and the new state. *)
Definition setTimeout (callback : Callback) (delay : nat) (s : View) : nat * View :=
  let handle := v_nextHandle s in
  (handle,
   with_timers s (v_timers s ++ [mkTimer handle (v_clock s + delay) callback])
               (S handle)).

(** [clearTimeout(handle)] *)
Definition clearTimeout (handle : nat) (s : View) : View :=
  with_timers s
    (List.filter (fun t => negb (Nat.eqb (t_handle t) handle)) (v_timers s))
    (v_nextHandle s).

(** [status === 'streaming' ? 100 : 0] *)
Definition scrollDelay (status : Status) : nat :=
  if Status_eqb status Streaming then 100%nat else 0%nat.

(** [status === 'streaming' ? 150 : 0] *)
Definition reasoningScrollDelay (status : Status) : nat :=
  if Status_eqb status Streaming then 150%nat else 0%nat.

(** [debouncedScroll] of a render whose status is [status] (lines 291-301). *)
Definition debouncedScroll (status : Status) (s : View) : View :=
  let s1 := match v_scrollTimeoutRef s with
            | Some handle => clearTimeout handle s
            | None => s
            end in
  let '(handle, s2) := setTimeout ScrollToEnd (scrollDelay status) s1 in
  with_scrollTimeoutRef s2 (Some handle).

(** [initialMessages && initialMessages.length > 0] *)
Definition hasInitialMessages (s : View) : bool :=
  match v_initialMessages s with
  | Some l => 0 <? js_length (deref (v_heap s) l)
  | None => false
  end.

(** The initial scroll of an existing chat (lines 70-76): the scroll, and
    whether [setHasInitialScrolled(true)] was called. The state it sets
    is seen from the next render on, not by the effects of this one. *)
Definition initialScrollEffect (s : View) : bool * View :=
  if hasInitialMessages s && negb (v_hasInitialScrolled s) && v_messagesEndRef s
  then (true, scrollIntoView_instant s)
  else (false, s).

(** The auto-scroll effect (lines 304-314). *)
Definition autoScrollEffect (s : View) : View :=
  if v_messagesEndRef s then
    if Status_eqb (v_status s) Streaming || Status_eqb (v_status s) Submitted
    then debouncedScroll (v_status s) s
    else
      if v_hasInitialScrolled s && (0 <? js_length (v_memoized s))
      then scrollIntoView_smooth s
      else s
  else s.

(** The reasoning scroll effect (lines 319-345): what runs at once. *)
Definition reasoningScrollEffect (s : View) : View :=
  let s1 := match v_reasoningScrollTimeoutRef s with
            | Some handle => clearTimeout handle s
            | None => s
            end in
  let '(handle, s2) :=
    setTimeout (ScrollReasoning (v_messages s)) (reasoningScrollDelay (v_status s)) s1 in
  with_reasoningScrollTimeoutRef s2 (Some handle).

(** The cleanup on unmount (lines 348-357). *)
Definition cleanup (s : View) : View :=
  let s1 := match v_scrollTimeoutRef s with
            | Some handle => clearTimeout handle s
            | None => s
            end in
  match v_reasoningScrollTimeoutRef s1 with
  | Some handle => clearTimeout handle s1
  | None => s1
  end.

(** A timer callback, run by the event loop. *)
Definition runCallback (callback : Callback) (s : View) : View :=
  match callback with
  | ScrollToEnd =>
      if v_messagesEndRef s then scrollIntoView_smooth s else s
  | ScrollReasoning l =>
      let messages := deref (v_heap s) l in
      if (0 <? js_length (activeReasoning messages)) && v_reasoningScrollRef s
      then scrollReasoningToBottom s
      else s
  end.

Definition isDue (now : nat) (t : Timer) : bool := Nat.leb (t_due t) now.

(** One turn of the event loop: every timer that is due leaves the queue
    and its callback runs, in the order of scheduling. *)
Definition fireDue (s : View) : View :=
  let due := List.filter (isDue (v_clock s)) (v_timers s) in
  let waiting := List.filter (fun t => negb (isDue (v_clock s) t)) (v_timers s) in
  fold_left (fun acc t => runCallback (t_callback t) acc) due
            (with_timers s waiting (v_nextHandle s)).

(** Time passes without the event loop getting a turn. *)
Definition elapse (dt : nat) (s : View) : View :=
  mkView (v_heap s) (v_messages s) (v_status s) (v_initialMessages s)
         (v_memoized s)
         (v_hasInitialScrolled s) (v_messagesEndRef s) (v_reasoningScrollRef s)
         (v_scrollTimeoutRef s) (v_reasoningScrollTimeoutRef s)
         (v_clock s + dt) (v_nextHandle s) (v_timers s)
         (v_smoothScrolls s) (v_instantScrolls s) (v_reasoningScrolls s).

(** The array at [l] gets the content [content]: a fresh array, or a
    mutation in place of one already referred to. *)
Definition store (l : nat) (content : list ChatMessage) (s : View) : View :=
  mkView (<[l := content]> (v_heap s)) (v_messages s) (v_status s)
         (v_initialMessages s) (v_memoized s)
         (v_hasInitialScrolled s) (v_messagesEndRef s) (v_reasoningScrollRef s)
         (v_scrollTimeoutRef s) (v_reasoningScrollTimeoutRef s)
         (v_clock s) (v_nextHandle s) (v_timers s)
         (v_smoothScrolls s) (v_instantScrolls s) (v_reasoningScrolls s).

(** The render that [setHasInitialScrolled(true)] causes: the props are
    the same, so of the scroll effects only the two that depend on
    [hasInitialScrolled] run again, the initial scroll and the auto-scroll
    effect. *)
Definition rerenderScrolled (s : View) : View :=
  let s1 := with_hasInitialScrolled s true in
  let '(_, s2) := initialScrollEffect s1 in
  autoScrollEffect s2.

(** The visible turns of a render handed the array [messages]: [useMemo]
    recomputes them when the reference changed. *)
Definition memoizedFor (messages : nat) (s : View) : list ChatMessage :=
  if negb (Nat.eqb messages (v_messages s))
  then memoizedMessages (deref (v_heap s) messages)
  else v_memoized s.

(** [a === b] on two props that are an array or [undefined]. *)
Definition sameReference (a b : option nat) : bool :=
  match a, b with
  | Some x, Some y => Nat.eqb x y
  | None, None => true
  | _, _ => false
  end.

(** The effects of one commit, in the order of declaration. Each runs
    when one of its dependencies changed ([initial], [auto], [reasoning]
    say which did) and sees [hasInitialScrolled] as it was when the
    render started; the render that [setHasInitialScrolled(true)] causes
    comes after them. *)
Definition runEffects (initial auto reasoning : bool) (s1 : View) : View :=
  let '(scrolled, s2) := if initial then initialScrollEffect s1 else (false, s1) in
  let s3 := if auto then autoScrollEffect s2 else s2 in
  let s4 := if reasoning then reasoningScrollEffect s3 else s3 in
  if scrolled then rerenderScrolled s4 else s4.

(** The component once a render with new props is committed: the end
    marker is attached exactly when something is rendered. *)
Definition withProps
    (messages : nat) (status : Status) (initialMessages : option nat)
    (s : View) : View :=
  let memoized := memoizedFor messages s in
  mkView (v_heap s) messages status initialMessages memoized
         (v_hasInitialScrolled s) (negb (js_length memoized =? 0))
         (v_reasoningScrollRef s)
         (v_scrollTimeoutRef s) (v_reasoningScrollTimeoutRef s)
         (v_clock s) (v_nextHandle s) (v_timers s)
         (v_smoothScrolls s) (v_instantScrolls s) (v_reasoningScrolls s).

(** A render with new props. The dependencies are those of lines 76, 314
    and 345: [initialMessages] for the initial scroll; the number of
    visible turns and the status (on which [debouncedScroll] depends) for
    the auto-scroll effect; [messages] and the status for the reasoning
    effect. *)
Definition setProps
    (messages : nat) (status : Status) (initialMessages : option nat)
    (s : View) : View :=
  let changedMessages := negb (Nat.eqb messages (v_messages s)) in
  let changedStatus := negb (Status_eqb status (v_status s)) in
  let changedInitial := negb (sameReference initialMessages (v_initialMessages s)) in
  let changedLength :=
    negb (js_length (memoizedFor messages s) =? js_length (v_memoized s)) in
  runEffects changedInitial
             (changedLength || changedStatus)
             (changedMessages || changedStatus)
             (withProps messages status initialMessages s).

(** The component at its first render, before any effect has run.
    [reasoningScrollRef] is created here and handed to no element, so it
    stays [null]. *)
Definition initialView
    (heap : gmap nat (list ChatMessage)) (messages : nat) (status : Status)
    (initialMessages : option nat) : View :=
  let memoized := memoizedMessages (deref heap messages) in
  mkView heap messages status initialMessages memoized
         false (negb (js_length memoized =? 0)) false
         None None 0%nat 1%nat [] 0%nat 0%nat 0%nat.

(** The first render: every effect runs. *)
Definition mount
    (heap : gmap nat (list ChatMessage)) (messages : nat) (status : Status)
    (initialMessages : option nat) : View :=
  runEffects true true true (initialView heap messages status initialMessages).

Inductive Event :=
| SetProps (messages : nat) (status : Status) (initialMessages : option nat)
| Store (l : nat) (content : list ChatMessage)
| Elapse (dt : nat)
| EventLoopTurn.

Definition step (e : Event) (s : View) : View :=
  match e with
  | SetProps messages status initialMessages =>
      setProps messages status initialMessages s
  | Store l content => store l content s
  | Elapse dt => elapse dt s
  | EventLoopTurn => fireDue s
  end.

Definition run (events : list Event) (s : View) : View :=
  fold_left (fun acc e => step e acc) events s.

Inductive reachable : View -> Prop :=
| reachable_mount heap messages status initialMessages :
    reachable (mount heap messages status initialMessages)
| reachable_step e s :
    reachable s -> reachable (step e s).

(** The props of one render. *)
Record Props := mkProps {
  p_messages : nat;
  p_status : Status;
  p_initialMessages : option nat
}.

Definition setPropsTo (p : Props) (s : View) : View :=
  setProps (p_messages p) (p_status p) (p_initialMessages p) s.

(** A render triggers the main scroller when a dependency of the
    auto-scroll effect changed with the props: the number of visible
    turns or the status. *)
Definition triggersScroll (p : Props) (s : View) : bool :=
  negb (js_length (memoizedFor (p_messages p) s) =? js_length (v_memoized s))
  || negb (Status_eqb (p_status p) (v_status s)).


(** A trigger in a settled status. *)
Definition isSettledTrigger (p : Props) (s : View) : bool :=
  triggersScroll p s
  && (Status_eqb (p_status p) Ready || Status_eqb (p_status p) Errored).







Definition isScrollToEnd (t : Timer) : bool :=
  match t_callback t with ScrollToEnd => true | ScrollReasoning _ => false end.

(** The pending runs of the main scroller. *)
Definition pendingScrolls (s : View) : list Timer :=
  List.filter isScrollToEnd (v_timers s).

(** The array the component was last handed, as it is now. *)
Definition currentMessages (s : View) : list ChatMessage :=
  deref (v_heap s) (v_messages s).

(** Invariants of the timer queue: a pending run of the main scroller is
    the one [scrollTimeoutRef] names; a pending run of the reasoning
    scroller is the one [reasoningScrollTimeoutRef] names, and the array
    it closes over is the one the component was last handed. *)
Definition scroll_inv (s : View) : Prop :=
  forall t, t ∈ v_timers s -> t_callback t = ScrollToEnd ->
            v_scrollTimeoutRef s = Some (t_handle t).

Definition reasoning_handles (s : View) : Prop :=
  forall t l, t ∈ v_timers s -> t_callback t = ScrollReasoning l ->
              v_reasoningScrollTimeoutRef s = Some (t_handle t).

Definition reasoning_current (s : View) : Prop :=
  forall t l, t ∈ v_timers s -> t_callback t = ScrollReasoning l ->
              l = v_messages s.

(** The state left by the [clearTimeout] that opens [debouncedScroll]. *)
Definition afterClearScroll (s : View) : View :=
  match v_scrollTimeoutRef s with
  | Some handle => clearTimeout handle s
  | None => s
  end.

(** The state left by the [clearTimeout] that opens the reasoning effect. *)
Definition afterClearReasoning (s : View) : View :=
  match v_reasoningScrollTimeoutRef s with
  | Some handle => clearTimeout handle s
  | None => s
  end.

Definition timers_inv (s : View) : Prop :=
  scroll_inv s /\ reasoning_handles s /\ reasoning_current s.

(** Whether the callback of [t], run in state [s], scrolls the reasoning
    panel. *)
Definition reasoningFires (s : View) (t : Timer) : bool :=
  match t_callback t with
  | ScrollToEnd => false
  | ScrollReasoning l =>
      (0 <? js_length (activeReasoning (deref (v_heap s) l))) && v_reasoningScrollRef s
  end.

(** No reasoning segment of any turn is active. *)
Definition noSegmentActive (messages : list ChatMessage) : Prop :=
  forall k turn index,
    messages !! k = Some turn -> isReasoningActive turn index = false.

(** Right after a trigger with status [status]: one run of the main
    scroller is pending, due after the delay of that status. *)
Definition justTriggered (status : Status) (s : View) : Prop :=
  scroll_inv s /\
  exists handle,
    pendingScrolls s = [mkTimer handle (v_clock s + scrollDelay status) ScrollToEnd].

(** ** Vocabulary of the specification *)

(** A part "is a tool invocation": its tag begins with the tool prefix. *)
Definition toolInvocation (p : Part) : Prop :=
  exists name, part_type p = String.append "tool-" name.

(** A text part with a non-blank payload. *)
Definition nonBlankText (p : Part) : Prop :=
  part_type p = "text" /\
  exists t, part_text p = Some t /\
            exists c, c ∈ t /\ is_js_whitespace c = false.

(** The part at [index] of [turn] is a reasoning part and no later part
    of the turn has one of the two tags the scroller looks for. *)
Definition reasoningOpenAt (turn : ChatMessage) (index : Z) : Prop :=
  exists p, js_index (msg_parts turn) index = Some p
    /\ part_type p = "reasoning"
    /\ forall j q, index < Z.of_nat j -> msg_parts turn !! j = Some q ->
                   part_type q <> "text" /\ part_type q <> "tool-invocation".

(** The last visible turn is a user turn, or an assistant turn of at most
    one part. *)
Definition lastIsUserOrSkeleton (messages : list ChatMessage) : Prop :=
  exists m, last (memoizedMessages messages) = Some m /\
    (msg_role m = User \/
     (msg_role m = Assistant /\ (length (msg_parts m) <= 1)%nat)).

(** [A], at index [k], is the last user turn of the sequence. *)
Definition lastUserAt (messages : list ChatMessage) (k : nat) (A : ChatMessage) : Prop :=
  messages !! k = Some A /\ msg_role A = User /\
  forall j m, (k < j)%nat -> messages !! j = Some m -> msg_role m <> User.

(** No turn before index [k] carries the id of [A]. *)
Definition idFirstAt (messages : list ChatMessage) (k : nat) (A : ChatMessage) : Prop :=
  forall j m, (j < k)%nat -> messages !! j = Some m -> msg_id m <> msg_id A.

(** The handler asks the persistence layer to delete: the caller is
    signed in and the turn has an id. *)
Definition deletionAttempted {UserData} (user : option UserData) (A : ChatMessage) : bool :=
  isSet user && js_truthy_string (msg_id A).

(** ** The rest of the component *)

(** The annotations [renderPart] hands on (lines 181-183):
    [message.parts.filter((p) => p.type.startsWith('data-'))]. *)
Definition annotationsOf (message : ChatMessage) : list Part :=
  List.filter (fun p => startsWith (part_type p) "data-") (msg_parts message).

(** The two values [messageClasses] takes (lines 374-387). *)
Definition class_plain : string := "mb-0".
Definition class_separated : string :=
  "mb-6 pb-6 border-b border-border dark:border-border".

(** The spacing classes of the visible turn at [index] (lines 367-387). *)
Definition messageClasses
    (memoized : list ChatMessage) (index : nat) (message : ChatMessage) : string :=
  let isNextMessageAssistant :=
    (Z.of_nat index <? js_length memoized - 1)
    && roleIs (js_index memoized (Z.of_nat index + 1)) Assistant in
  let isCurrentMessageUser := Role_eqb (msg_role message) User in
  let isCurrentMessageAssistant := Role_eqb (msg_role message) Assistant in
  if isCurrentMessageUser && isNextMessageAssistant then class_plain
  else
    if isCurrentMessageAssistant && (Z.of_nat index <? js_length memoized - 1)
    then class_separated
    else
      if isCurrentMessageAssistant && (Z.of_nat index =? js_length memoized - 1)
      then class_plain
      else class_plain.

(** The pending runs of the reasoning scroller. *)
Definition pendingReasoning (s : View) : list Timer :=
  List.filter (fun t => negb (isScrollToEnd t)) (v_timers s).

(** Handles are handed out once: those in the queue are distinct and
    older than the next one, as are the two the refs hold; and a ref
    never names a run of the other scroller. *)
Definition sched_inv (s : View) : Prop :=
  NoDup (map t_handle (v_timers s))
  /\ (forall t, t ∈ v_timers s -> (t_handle t < v_nextHandle s)%nat)
  /\ (forall h, v_scrollTimeoutRef s = Some h -> (h < v_nextHandle s)%nat)
  /\ (forall h, v_reasoningScrollTimeoutRef s = Some h -> (h < v_nextHandle s)%nat)
  /\ (forall t, t ∈ v_timers s -> v_scrollTimeoutRef s = Some (t_handle t) ->
                isScrollToEnd t = true)
  /\ (forall t, t ∈ v_timers s -> v_reasoningScrollTimeoutRef s = Some (t_handle t) ->
                isScrollToEnd t = false).

(** The end marker is attached exactly when something is rendered. *)
Definition endRef_inv (s : View) : Prop :=
  v_messagesEndRef s = negb (js_length (v_memoized s) =? 0).

(** A reasoning segment as the specification has it: the part at [index]
    is tagged reasoning and no later part of the turn is tagged text or
    is a tool invocation. *)
Definition segmentActive (turn : ChatMessage) (index : nat) : Prop :=
  exists p, msg_parts turn !! index = Some p
    /\ part_type p = "reasoning"
    /\ forall j q, (index < j)%nat -> msg_parts turn !! j = Some q ->
                   part_type q <> "text" /\ ~ toolInvocation q.

(** No segment of any turn is active, in that sense. *)
Definition noneActive (messages : list ChatMessage) : Prop :=
  forall k turn index, messages !! k = Some turn -> ~ segmentActive turn index.

(** [reasoningScrollRef.current] is [null]. *)
Definition reasoningRef_inv (s : View) : Prop := v_reasoningScrollRef s = false.

(** The instant scroll has happened exactly when the flag is set. *)
Definition initialScroll_inv (s : View) : Prop :=
  v_instantScrolls s = if v_hasInitialScrolled s then 1%nat else 0%nat.

(** ** Basic facts *)

Lemma Role_eqb_eq a b : Role_eqb a b = true <-> a = b.
Proof. destruct a, b; simpl; split; congruence. Qed.

Lemma Status_eqb_eq a b : Status_eqb a b = true <-> a = b.
Proof. destruct a, b; simpl; split; congruence. Qed.

Lemma js_index_of_nat {A} (arr : list A) (i : nat) :
  js_index arr (Z.of_nat i) = arr !! i.
Proof.
  unfold js_index.
  destruct (Z.ltb_spec (Z.of_nat i) 0) as [Hneg|_]; [lia|].
  by rewrite Nat2Z.id.
Qed.

Lemma lastMessageOf_last (memoized : list ChatMessage) :
  lastMessageOf memoized = last memoized.
Proof.
  unfold lastMessageOf, js_length.
  destruct memoized as [|m rest]; [reflexivity|].
  replace (Z.of_nat (length (m :: rest)) - 1) with (Z.of_nat (length rest))
    by (simpl length; lia).
  rewrite js_index_of_nat, last_lookup. reflexivity.
Qed.

Lemma roleIs_true lastMessage r :
  roleIs lastMessage r = true <-> exists m, lastMessage = Some m /\ msg_role m = r.
Proof.
  destruct lastMessage as [m|]; simpl.
  - rewrite Role_eqb_eq. split; [eauto|]. by intros (m' & [= <-] & H).
  - split; [discriminate|]. by intros (m' & [=] & _).
Qed.

Lemma partsCountOf_le_1 m :
  (partsCountOf (Some m) <=? 1) = true <-> (length (msg_parts m) <= 1)%nat.
Proof. unfold partsCountOf, js_length. rewrite Z.leb_le. lia. Qed.

Lemma some_true {A} (p : A -> bool) (arr : list A) :
  some p arr = true <-> exists x, x ∈ arr /\ p x = true.
Proof.
  unfold some. rewrite existsb_exists.
  split; intros (x & Hx & Hp); exists x; split; auto; by apply list_elem_of_In.
Qed.

Lemma startsWith_tool (s : string) :
  startsWith s "tool-" = true <-> exists name, s = String.append "tool-" name.
Proof.
  unfold startsWith. split.
  - intros H.
    repeat (destruct s as [|? s]; simpl in H; [discriminate|];
            match type of H with
            | (if ?d then _ else _) = true =>
                destruct d as [<-|]; [|discriminate]
            end).
    by exists s.
  - intros (name & ->). simpl.
    repeat (match goal with
            | |- (if ?d then _ else _) = true => destruct d; [|congruence]
            end).
    by destruct name.
Qed.

Lemma isToolPart_true p : isToolPart p = true <-> toolInvocation p.
Proof. apply startsWith_tool. Qed.

Lemma trimStart_nil (s : js_text) :
  trimStart s = [] <-> Forall (fun c => is_js_whitespace c = true) s.
Proof.
  induction s as [|c s IH]; simpl.
  - split; [constructor|reflexivity].
  - destruct (is_js_whitespace c) eqn:Hc.
    + rewrite IH. split; [by constructor|by inversion 1].
    + split; [discriminate|]. inversion 1; congruence.
Qed.

Lemma trimStart_suffix (s : js_text) : exists pre, s = pre ++ trimStart s.
Proof.
  induction s as [|c s [pre IH]]; simpl.
  - by exists [].
  - destruct (is_js_whitespace c).
    + exists (c :: pre). simpl. by f_equal.
    + by exists [].
Qed.

Lemma trimStart_head (s : js_text) c rest :
  trimStart s = c :: rest -> is_js_whitespace c = false.
Proof.
  induction s as [|d s IH]; simpl; [discriminate|].
  destruct (is_js_whitespace d) eqn:Hd; [exact IH|].
  by intros [= <- _].
Qed.

(** [trim] leaves something exactly when some code unit is not white space. *)
Lemma trim_nonempty (t : js_text) :
  js_nonempty (trim t) = true <-> exists c, c ∈ t /\ is_js_whitespace c = false.
Proof.
  unfold trim. split.
  - intros H.
    destruct (trimStart t) as [|c rest] eqn:Ht; [discriminate H|].
    exists c. split; [|by eapply trimStart_head].
    destruct (trimStart_suffix t) as [pre Hpre].
    rewrite Hpre, Ht. apply elem_of_app. right. by left.
  - intros (c & Hin & Hc).
    destruct (rev (trimStart (rev (trimStart t)))) as [|d l] eqn:Hr; [|reflexivity].
    exfalso.
    apply (f_equal (@rev N)) in Hr. rewrite rev_involutive in Hr. simpl in Hr.
    apply trimStart_nil in Hr.
    destruct (trimStart t) as [|d rest] eqn:Ht.
    + apply trimStart_nil in Ht.
      rewrite Forall_forall in Ht. specialize (Ht c Hin). congruence.
    + pose proof (trimStart_head _ _ _ Ht) as Hd.
      rewrite Forall_forall in Hr.
      assert (d ∈ rev (d :: rest)) as Hin'.
      { apply list_elem_of_In. apply -> in_rev. by left. }
      specialize (Hr d Hin'). congruence.
Qed.

Lemma isVisibleTextPart_true p : isVisibleTextPart p = true <-> nonBlankText p.
Proof.
  unfold isVisibleTextPart, nonBlankText.
  rewrite andb_true_iff, String.eqb_eq.
  split.
  - intros [Hty H]. split; [done|].
    destruct (part_text p) as [t|]; [|discriminate].
    apply andb_true_iff in H as [_ H]. apply trim_nonempty in H. eauto.
  - intros [Hty (t & -> & Hc)]. split; [done|].
    apply andb_true_iff. split; [|by apply trim_nonempty].
    destruct Hc as (c & Hin & _). destruct t; [by apply elem_of_nil in Hin|done].
Qed.

(** With the two roles of the data model only, the filter keeps everything. *)
Lemma memoizedMessages_all (messages : list ChatMessage) :
  Forall (fun m => msg_role m = User \/ msg_role m = Assistant) messages ->
  memoizedMessages messages = messages.
Proof.
  unfold memoizedMessages.
  induction 1 as [|m l Hm _ IH]; simpl; [reflexivity|].
  unfold keepMessage at 1.
  destruct Hm as [-> | ->]; simpl; by rewrite IH.
Qed.

(** ** The loading indicator *)

Lemma shouldShowLoading_spec messages status :
  shouldShowLoading messages status = true <->
  status = Submitted \/ (status = Streaming /\ lastIsUserOrSkeleton messages).
Proof.
  unfold shouldShowLoading, lastIsUserOrSkeleton.
  rewrite lastMessageOf_last.
  destruct status; simpl;
    try (split; [discriminate | intros [?|[? _]]; discriminate]);
    [split; auto|].
  destruct (last (memoizedMessages messages)) as [m|]; cbn [roleIs].
  - destruct (msg_role m) eqn:Hr; cbn [Role_eqb].
    + split; [|done]. intros _. right. split; [done|]. exists m. auto.
    + rewrite partsCountOf_le_1. split.
      * intros H. right. split; [done|]. exists m. auto.
      * intros [?|[_ (m' & [= <-] & [?|[_ H]])]]; congruence.
    + split; [discriminate|].
      intros [?|[_ (m' & [= <-] & [?|[? _]])]]; congruence.
  - split; [discriminate|]. intros [?|[_ (m' & ? & _)]]; discriminate.
Qed.

(** C5. The loading indicator is shown exactly when the status is
    submitted, or the status is streaming and the last visible turn is a
    user turn or an assistant turn of at most one part. With a user turn
    followed by an assistant turn of one part and status streaming it is
    shown; with a second part appended to that assistant turn it is not. *)
Theorem shouldShowLoading_rule :
  (forall messages status,
      shouldShowLoading messages status = true <->
      status = Submitted \/ (status = Streaming /\ lastIsUserOrSkeleton messages))
  /\ (forall idU partsU idA p,
         shouldShowLoading
           [mkMessage idU User partsU; mkMessage idA Assistant [p]] Streaming = true)
  /\ (forall idU partsU idA p q,
         shouldShowLoading
           [mkMessage idU User partsU; mkMessage idA Assistant [p; q]] Streaming = false).
Proof.
  split; [exact shouldShowLoading_spec|]. split; reflexivity.
Qed.

(** C10. Whenever the loader reserves its minimum height, the loading
    indicator is shown. *)
Theorem shouldReserveLoaderMinHeight_implies_shouldShowLoading messages status :
  shouldReserveLoaderMinHeight messages status = true ->
  shouldShowLoading messages status = true.
Proof.
  unfold shouldReserveLoaderMinHeight, isActiveAssistantSkeleton, shouldShowLoading.
  destruct status; simpl; try done.
  destruct (lastMessageOf (memoizedMessages messages)) as [m|]; simpl; [|done].
  destruct (msg_role m); simpl; [done| |done].
  by destruct (js_length (msg_parts m) <=? 1).
Qed.

Lemma shouldReserveLoaderMinHeight_implies_shouldShowLoading_witness :
  shouldShowLoading
    [mkMessage "u1" User [mkPart "text" (Some [104; 105]%N)]] Streaming = true.
Proof.
  apply shouldReserveLoaderMinHeight_implies_shouldShowLoading.
  reflexivity.
Defined.

(** ** The missing-response condition *)

(** C4. The response counts as missing exactly when the status is ready,
    no error is set, and the last visible turn is a user turn or an
    assistant turn with neither a non-blank text part nor a tool
    invocation; so it never does while an error is set. *)
Theorem isMissingAssistantResponse_rule :
  forall (Err : Type) messages status (error : option Err),
    (isMissingAssistantResponse messages status error = true <->
     status = Ready /\ error = None /\
     exists m, last (memoizedMessages messages) = Some m /\
       (msg_role m = User \/
        (msg_role m = Assistant /\
         ~ (exists p, p ∈ msg_parts m /\ nonBlankText p) /\
         ~ (exists p, p ∈ msg_parts m /\ toolInvocation p))))
    /\ (forall e : Err, isMissingAssistantResponse messages status (Some e) = false).
Proof.
  intros Err messages status error. split.
  - unfold isMissingAssistantResponse. rewrite lastMessageOf_last.
    destruct (last (memoizedMessages messages)) as [m|]; simpl;
      [|split; [discriminate | by intros (_ & _ & m & [=] & _)]].
    assert (Hparts :
      (some isVisibleTextPart (msg_parts m) || some isToolPart (msg_parts m)) = false <->
      ~ (exists p, p ∈ msg_parts m /\ nonBlankText p) /\
      ~ (exists p, p ∈ msg_parts m /\ toolInvocation p)).
    { rewrite orb_false_iff.
      rewrite <- !not_true_iff_false, !some_true.
      split; intros [H1 H2]; split; intros (p & Hin & Hp); [apply H1|apply H2|apply H1|apply H2];
        exists p; split; auto;
        first [by apply isVisibleTextPart_true | by apply isToolPart_true]. }
    destruct (msg_role m) eqn:Hr, status, error as [e|]; simpl;
      try (split; [discriminate | by intros ([=] & _)]);
      try (split; [discriminate | by intros (_ & [=] & _)]);
      try (split; [discriminate | intros (_ & _ & m' & [= <-] & [?|[? _]]); congruence]).
    + split; [|done]. intros _. repeat split. exists m. auto.
    + destruct (some isVisibleTextPart (msg_parts m) || some isToolPart (msg_parts m)) eqn:Hv;
        simpl; split.
      * discriminate.
      * intros (_ & _ & m' & [= <-] & [?|[_ H]]); [congruence|].
        apply Hparts in H. discriminate.
      * intros _. repeat split. exists m. split; [done|]. right. split; [done|].
        by apply Hparts.
      * done.
  - intros e. unfold isMissingAssistantResponse. simpl.
    by rewrite !andb_false_r.
Qed.

(** ** Height reduction *)

Lemma lastAssistantIndex_from_nil n : lastAssistantIndex_from [] n = -1.
Proof.
  induction n as [|n IH]; simpl; [reflexivity|].
  by rewrite js_index_of_nat.
Qed.

Lemma activeAssistantIndex_cases messages status :
  (activeAssistantIndex messages status = -1 /\
   isActiveAssistantSkeleton messages status = false)
  \/ (status = Streaming /\
      activeAssistantIndex messages status = js_length (memoizedMessages messages) - 1 /\
      exists m, last (memoizedMessages messages) = Some m /\ msg_role m = Assistant /\
                isActiveAssistantSkeleton messages status = (partsCountOf (Some m) <=? 1)).
Proof.
  unfold activeAssistantIndex, isActiveAssistantSkeleton.
  rewrite lastMessageOf_last.
  destruct status; simpl; auto.
  destruct (last (memoizedMessages messages)) as [m|]; simpl; auto.
  destruct (msg_role m) eqn:Hr; simpl; auto.
  right. split; [done|]. split; [done|]. exists m. auto.
Qed.

(** C2, as the code has it. For an assistant turn at index [i] of the
    visible sequence: while the status is submitted the flag is true;
    while it is streaming the flag is false exactly when [i] is the
    active assistant index and that turn is past the skeleton phase (two
    parts or more), and true otherwise; in every other status it is
    [i <> lastAssistantIndex]. *)
Theorem shouldReduceHeight_rule messages status i m :
  memoizedMessages messages !! i = Some m ->
  msg_role m = Assistant ->
  (status = Submitted -> shouldReduceHeight messages status i m = true)
  /\ (status = Streaming ->
      (shouldReduceHeight messages status i m = false <->
       Z.of_nat i = activeAssistantIndex messages status
       /\ (2 <= length (msg_parts m))%nat))
  /\ (status <> Submitted -> status <> Streaming ->
      shouldReduceHeight messages status i m
      = negb (Z.of_nat i =? lastAssistantIndex messages)).
Proof.
  intros Hi Hm. unfold shouldReduceHeight. rewrite Hm. simpl.
  split; [by intros ->|]. split; [|by destruct status].
  intros ->. simpl.
  destruct (activeAssistantIndex_cases messages Streaming)
    as [[Ha Hs] | (_ & Ha & last_m & Hlast & _ & Hs)].
  - rewrite Ha. simpl. split; [discriminate|]. intros [? _]. lia.
  - rewrite Ha, Hs.
    assert ((js_length (memoizedMessages messages) - 1 =? -1) = false) as ->.
    { apply Z.eqb_neq. unfold js_length.
      destruct (memoizedMessages messages); [discriminate Hlast|simpl length; lia]. }
    simpl.
    destruct (Z.eqb_spec (Z.of_nat i) (js_length (memoizedMessages messages) - 1))
      as [Heq|Hne].
    + assert (last_m = m) as ->.
      { rewrite last_lookup in Hlast.
        replace (Init.Nat.pred (length (memoizedMessages messages))) with i in Hlast
          by (unfold js_length in Heq; lia).
        congruence. }
      unfold partsCountOf. rewrite Z.leb_gt. unfold js_length in *.
      split; [intros ?; split; [done|lia] | intros [_ ?]; lia].
    + split; [discriminate|]. by intros [? _].
Qed.

Lemma shouldReduceHeight_rule_witness :
  let messages :=
    [mkMessage "u1" User [mkPart "text" (Some [104; 105]%N)];
     mkMessage "a1" Assistant
       [mkPart "reasoning" (Some []); mkPart "text" (Some [111; 107]%N)]] in
  shouldReduceHeight messages Streaming 1
    (mkMessage "a1" Assistant
       [mkPart "reasoning" (Some []); mkPart "text" (Some [111; 107]%N)]) = false.
Proof.
  intros messages.
  destruct (shouldReduceHeight_rule messages Streaming 1
              (mkMessage "a1" Assistant
                 [mkPart "reasoning" (Some []); mkPart "text" (Some [111; 107]%N)])
              eq_refl eq_refl) as (_ & Hstreaming & _).
  apply Hstreaming; [reflexivity|].
  split; [reflexivity | simpl; lia].
Defined.

(** C2 as the specification words it fails: while streaming, the active
    assistant turn in its skeleton phase has the flag set, not cleared. *)
Lemma shouldReduceHeight_skeleton_counterexample :
  let a := mkMessage "a1" Assistant [mkPart "text" (Some [111; 107]%N)] in
  let messages := [mkMessage "u1" User [mkPart "text" (Some [104; 105]%N)]; a] in
  memoizedMessages messages !! 1%nat = Some a
  /\ msg_role a = Assistant
  /\ Z.of_nat 1 = activeAssistantIndex messages Streaming
  /\ (length (msg_parts a) <= 1)%nat
  /\ shouldReduceHeight messages Streaming 1 a <> false.
Proof.
  simpl. repeat split; try reflexivity; try lia. discriminate.
Qed.

(** ** The empty transcript *)

(** C6, as the code has it. On the empty sequence every derived value is
    defined: there is no last or active assistant turn, nothing is
    missing, and the loading computation and the height reservation are
    true exactly when the status is submitted; the component renders
    nothing, so no indicator is displayed. *)
Theorem empty_sequence_outputs :
  forall (Err : Type) status (error : option Err),
    lastAssistantIndex [] = -1
    /\ activeAssistantIndex [] status = -1
    /\ hasActiveToolInvocations [] status = false
    /\ isActiveAssistantSkeleton [] status = false
    /\ isMissingAssistantResponse [] status error = false
    /\ (shouldShowLoading [] status = true <-> status = Submitted)
    /\ (shouldReserveLoaderMinHeight [] status = true <-> status = Submitted)
    /\ render [] status error = None.
Proof.
  intros Err status error.
  repeat split; try reflexivity;
    try (by destruct status); try (by destruct status, error);
    try (intros ->; reflexivity).
Qed.

(** C6 as the specification words it fails when the status is submitted. *)
Lemma shouldShowLoading_empty_counterexample :
  lastAssistantIndex [] = -1 /\ shouldShowLoading [] Submitted <> false.
Proof. split; [reflexivity | discriminate]. Qed.

(** ** Active reasoning segments *)

Lemma some_from_true {A} (f : A -> Z -> bool) (i0 : Z) (arr : list A) :
  some_from f i0 arr = true <->
  exists k x, arr !! k = Some x /\ f x (i0 + Z.of_nat k) = true.
Proof.
  revert i0. induction arr as [|a arr IH]; intros i0; simpl.
  - split; [discriminate|]. by intros (k & x & [=] & _).
  - rewrite orb_true_iff, IH. split.
    + intros [H | (k & x & Hk & H)].
      * exists 0%nat, a. split; [done|]. by rewrite Z.add_0_r.
      * exists (S k), x. split; [done|].
        by replace (i0 + Z.of_nat (S k)) with (i0 + 1 + Z.of_nat k) by lia.
    + intros ([|k] & x & Hk & H).
      * left. injection Hk as <-. by rewrite Z.add_0_r in H.
      * right. exists k, x. split; [done|].
        by replace (i0 + 1 + Z.of_nat k) with (i0 + Z.of_nat (S k)) by lia.
Qed.

Lemma elem_of_map_from {A B} (f : A -> Z -> B) (i0 : Z) (arr : list A) (y : B) :
  y ∈ map_from f i0 arr <->
  exists k x, arr !! k = Some x /\ y = f x (i0 + Z.of_nat k).
Proof.
  revert i0. induction arr as [|a arr IH]; intros i0; simpl.
  - split; [by intros ?%elem_of_nil|]. by intros (k & x & [=] & _).
  - rewrite elem_of_cons, IH. split.
    + intros [-> | (k & x & Hk & ->)].
      * exists 0%nat, a. split; [done|]. by rewrite Z.add_0_r.
      * exists (S k), x. split; [done|]. f_equal. lia.
    + intros ([|k] & x & Hk & ->).
      * left. injection Hk as <-. by rewrite Z.add_0_r.
      * right. exists k, x. split; [done|]. f_equal. lia.
Qed.

Lemma elem_of_flatMap_from {A B} (f : A -> Z -> list B) (i0 : Z) (arr : list A) (y : B) :
  y ∈ flatMap_from f i0 arr <->
  exists k x, arr !! k = Some x /\ y ∈ f x (i0 + Z.of_nat k).
Proof.
  revert i0. induction arr as [|a arr IH]; intros i0; simpl.
  - split; [by intros ?%elem_of_nil|]. by intros (k & x & [=] & _).
  - rewrite elem_of_app, IH. split.
    + intros [H | (k & x & Hk & H)].
      * exists 0%nat, a. split; [done|]. by rewrite Z.add_0_r.
      * exists (S k), x. split; [done|].
        by replace (i0 + Z.of_nat (S k)) with (i0 + 1 + Z.of_nat k) by lia.
    + intros ([|k] & x & Hk & H).
      * left. injection Hk as <-. by rewrite Z.add_0_r in H.
      * right. exists k, x. split; [done|].
        by replace (i0 + 1 + Z.of_nat k) with (i0 + Z.of_nat (S k)) by lia.
Qed.

Lemma elem_of_List_filter {A} (p : A -> bool) (l : list A) (x : A) :
  x ∈ List.filter p l <-> x ∈ l /\ p x = true.
Proof. rewrite !list_elem_of_In. apply filter_In. Qed.

Lemma closesReasoning_false q :
  closesReasoning q = false <->
  part_type q <> "text" /\ part_type q <> "tool-invocation".
Proof.
  unfold closesReasoning. rewrite orb_false_iff, !String.eqb_neq. reflexivity.
Qed.

(** What the nested filters of [activeReasoning] let through. *)
Lemma elem_of_activeReasoning messages info :
  info ∈ activeReasoning messages <->
  exists k turn j,
    messages !! k = Some turn
    /\ msg_parts turn !! j = Some (pi_part info)
    /\ messageIndex info = Z.of_nat k
    /\ partIndex info = Z.of_nat j
    /\ reasoningOpenAt turn (Z.of_nat j).
Proof.
  unfold activeReasoning. rewrite elem_of_flatMap_from. split.
  - intros (k & turn & Hk & Hin).
    rewrite !elem_of_List_filter, elem_of_map_from in Hin.
    destruct Hin as [[(j & p & Hj & ->) Hty] Hinc].
    rewrite !Z.add_0_l in *.
    simpl in Hty. apply String.eqb_eq in Hty.
    unfold reasoningIncomplete in Hinc. simpl in Hinc.
    rewrite js_index_of_nat, Hk in Hinc.
    apply negb_true_iff in Hinc.
    exists k, turn, j. simpl. repeat split; try done.
    exists p. rewrite js_index_of_nat. split; [done|]. split; [done|].
    intros j' q Hlt Hq. apply closesReasoning_false.
    destruct (closesReasoning q) eqn:Hcl; [|done].
    rewrite <- Hinc. symmetry. apply some_from_true.
    exists j', q. split; [done|]. simpl. rewrite Hcl, andb_true_r.
    rewrite Z.gtb_ltb. apply Z.ltb_lt. lia.
  - intros (k & turn & j & Hk & Hj & Hmi & Hpi & (p & Hp & Hty & Hlater)).
    rewrite js_index_of_nat, Hj in Hp. injection Hp as <-.
    exists k, turn. split; [done|].
    rewrite !elem_of_List_filter, elem_of_map_from. repeat split.
    + exists j, (pi_part info). split; [done|].
      destruct info as [p mi pi]. simpl in *. subst. by rewrite !Z.add_0_l.
    + by apply String.eqb_eq.
    + unfold reasoningIncomplete. rewrite Hmi, js_index_of_nat, Hk.
      apply negb_true_iff, not_true_iff_false.
      intros (j' & q & Hq & H)%some_from_true.
      apply andb_true_iff in H as [Hlt Hcl].
      rewrite Z.gtb_ltb in Hlt. apply Z.ltb_lt in Hlt.
      assert (closesReasoning q = false); [|congruence].
      apply closesReasoning_false, (Hlater j'); [lia|done].
Qed.

(** What the code computes for one segment: only the exact tags [text]
    and [tool-invocation] close a reasoning part. *)
Lemma isReasoningActive_spec turn index :
  isReasoningActive turn index = true <-> reasoningOpenAt turn index.
Proof.
  unfold isReasoningActive. rewrite existsb_exists. split.
  - intros (info & Hin%list_elem_of_In & Hidx%Z.eqb_eq).
    apply elem_of_activeReasoning in Hin
      as (k & turn' & j & Hk & _ & _ & Hpi & Hopen).
    destruct k; [|done]. injection Hk as <-.
    rewrite <- Hidx, Hpi. exact Hopen.
  - intros Hopen. pose proof Hopen as (p & Hp & _).
    unfold js_index in Hp.
    destruct (Z.ltb_spec index 0) as [|Hnn]; [discriminate|].
    exists (mkPartInfo p 0 index). split; [|by apply Z.eqb_eq].
    apply list_elem_of_In, elem_of_activeReasoning.
    exists 0%nat, turn, (Z.to_nat index). simpl.
    rewrite Z2Nat.id by done. by repeat split.
Qed.

(** Some segment is active, across all turns, exactly when
    [activeReasoning] is not empty. *)
Lemma activeReasoning_nonempty messages :
  (0 <? js_length (activeReasoning messages)) = true <->
  exists k turn index, messages !! k = Some turn /\ isReasoningActive turn index = true.
Proof.
  unfold js_length. rewrite Z.ltb_lt. split.
  - destruct (activeReasoning messages) as [|info rest] eqn:Hactive; [simpl; lia|].
    intros _.
    assert (info ∈ activeReasoning messages) as Hin by (rewrite Hactive; by left).
    apply elem_of_activeReasoning in Hin as (k & turn & j & Hk & _ & _ & _ & Hopen).
    exists k, turn, (Z.of_nat j). split; [done|]. by apply isReasoningActive_spec.
  - intros (k & turn & index & Hk & Hactive).
    apply isReasoningActive_spec in Hactive. pose proof Hactive as (p & Hp & _).
    unfold js_index in Hp.
    destruct (Z.ltb_spec index 0) as [|Hnn]; [discriminate|].
    assert (mkPartInfo p (Z.of_nat k) index ∈ activeReasoning messages) as Hin.
    { apply elem_of_activeReasoning.
      exists k, turn, (Z.to_nat index). simpl.
      rewrite Z2Nat.id by done. by repeat split. }
    destruct (activeReasoning messages); [by apply elem_of_nil in Hin|simpl; lia].
Qed.

(** The two examples of the specification hold on the code. *)
Lemma isReasoningActive_examples idA r t :
  isReasoningActive
    (mkMessage idA Assistant [mkPart "reasoning" r; mkPart "text" t]) 0 = false
  /\ isReasoningActive (mkMessage idA Assistant [mkPart "reasoning" r]) 0 = true.
Proof. split; reflexivity. Qed.

(** C3 on the code: a later tool part, tagged [tool-<name>] as every tool
    part is, does not close the reasoning segment before it. *)
Theorem isReasoningActive_ignores_tool_parts :
  let call := mkPart "tool-web_search" None in
  let turn := mkMessage "a1" Assistant [mkPart "reasoning" (Some [104; 109]%N); call] in
  msg_parts turn !! 1%nat = Some call
  /\ toolInvocation call
  /\ isToolPart call = true
  /\ isReasoningActive turn 0 = true.
Proof.
  simpl. repeat split. by exists "web_search".
Qed.

(** ** Retry *)

Lemma findLast_None {A} (p : A -> bool) (arr : list A) :
  findLast p arr = None <-> forall x, x ∈ arr -> p x = false.
Proof.
  induction arr as [|a arr IH]; simpl.
  - split; [|done]. by intros _ x ?%elem_of_nil.
  - destruct (findLast p arr) as [y|] eqn:Hf.
    + split; [discriminate|]. intros H.
      assert (Some y = None); [|discriminate].
      apply IH. intros x Hx. apply H. by right.
    + destruct (p a) eqn:Hp.
      * split; [discriminate|]. intros H.
        rewrite H in Hp by (by left). discriminate.
      * split; [|done]. intros _ x [->|Hx]%elem_of_cons; [done|].
        by apply IH.
Qed.

Lemma findLast_lastUserAt messages k A :
  lastUserAt messages k A ->
  findLast (fun m => Role_eqb (msg_role m) User) messages = Some A.
Proof.
  revert k. induction messages as [|x rest IH]; intros k (Hk & HA & Hlater).
  - discriminate.
  - simpl. destruct k as [|k].
    + injection Hk as ->.
      assert (findLast (fun m => Role_eqb (msg_role m) User) rest = None) as ->.
      { apply findLast_None. intros m (j & Hj)%list_elem_of_lookup.
        apply not_true_iff_false. rewrite Role_eqb_eq.
        apply (Hlater (S j)); [lia|done]. }
      by rewrite HA.
    + rewrite (IH k); [done|].
      split; [done|]. split; [done|].
      intros j m Hlt Hj. apply (Hlater (S j)); [lia|done].
Qed.

Lemma pushUntil_take messages k A :
  messages !! k = Some A ->
  idFirstAt messages k A ->
  pushUntil (msg_id A) messages = take (S k) messages.
Proof.
  revert k. induction messages as [|x rest IH]; intros k Hk Hfirst.
  - discriminate.
  - simpl. destruct k as [|k].
    + injection Hk as ->. rewrite String.eqb_refl. by rewrite take_0.
    + assert (String.eqb (msg_id x) (msg_id A) = false) as ->.
      { apply String.eqb_neq. apply (Hfirst 0%nat); [lia|done]. }
      f_equal. apply IH; [done|].
      intros j m Hlt Hj. apply (Hfirst (S j)); [lia|done].
Qed.

(** C1, as the code has it. With [A] the last user turn, at index [k],
    and no earlier turn carrying its id: the handler never throws; when
    no deletion is attempted or the deletion call resolves, the local
    sequence becomes the prefix up to and including [A], the suggested
    questions become empty and [regenerate] is called once, whether or
    not it resolves; when the deletion call rejects, the error is logged
    and nothing else happens: the sequence and the suggestions stay as
    they were and [regenerate] is not called. *)
Theorem handleRetry_truncates_then_regenerates
    {UserData : Type} messages k A (user : option UserData)
    (del : string -> Outcome) (regen : Outcome) (w : World) :
  lastUserAt messages k A ->
  idFirstAt messages k A ->
  let result := handleRetry messages user del regen w in
  snd result = inr ()
  /\ w_deleteCalls (fst result)
     = w_deleteCalls w ++ (if deletionAttempted user A then [msg_id A] else [])
  /\ (deletionAttempted user A = false \/ del (msg_id A) = Resolves ->
      w_messages (fst result) = take (S k) messages
      /\ w_suggestedQuestions (fst result) = []
      /\ w_regenerateCalls (fst result) = S (w_regenerateCalls w))
  /\ (deletionAttempted user A = true -> del (msg_id A) = Rejects ->
      w_messages (fst result) = w_messages w
      /\ w_suggestedQuestions (fst result) = w_suggestedQuestions w
      /\ w_regenerateCalls (fst result) = w_regenerateCalls w
      /\ w_consoleErrors (fst result) = w_consoleErrors w ++ [DeleteRejected]).
Proof.
  intros Hlast Hfirst.
  pose proof (findLast_lastUserAt _ _ _ Hlast) as Hfind.
  destruct Hlast as (Hk & _ & _).
  pose proof (pushUntil_take _ _ _ Hk Hfirst) as Hpush.
  unfold handleRetry, tryCatch, deletionAttempted. rewrite Hfind.
  cbv [mbind mret Async_bind Async_ret deleteTrailingMessages setMessages
       setSuggestedQuestions regenerate console_error].
  rewrite Hpush.
  destruct (isSet user && js_truthy_string (msg_id A));
    destruct (del (msg_id A)); destruct regen; simpl;
    rewrite ?app_nil_r; intuition congruence.
Qed.

Lemma handleRetry_truncates_then_regenerates_witness :
  let A := mkMessage "u1" User [mkPart "text" (Some [104; 105]%N)] in
  let B := mkMessage "a1" Assistant [] in
  let w := mkWorld [A; B] ["more?"] [] 0 [] in
  w_messages (fst (handleRetry [A; B] (Some tt) (fun _ => Resolves) Rejects w)) = [A]
  /\ w_suggestedQuestions
       (fst (handleRetry [A; B] (Some tt) (fun _ => Resolves) Rejects w)) = []
  /\ w_regenerateCalls
       (fst (handleRetry [A; B] (Some tt) (fun _ => Resolves) Rejects w)) = 1%nat.
Proof.
  intros A B w.
  assert (lastUserAt [A; B] 0 A) as Hlast.
  { split; [reflexivity|]. split; [reflexivity|].
    intros [|[|j]] m Hlt Hm; [lia| |discriminate Hm].
    injection Hm as <-. discriminate. }
  assert (idFirstAt [A; B] 0 A) as Hfirst.
  { intros j m Hlt. lia. }
  destruct (handleRetry_truncates_then_regenerates
              [A; B] 0 A (Some tt) (fun _ => Resolves) Rejects w Hlast Hfirst)
    as (_ & _ & Hok & _).
  apply Hok. right. reflexivity.
Defined.

(** C1 as the specification words it fails when the deletion call
    rejects: the handler stops there. *)
Lemma handleRetry_delete_rejects_counterexample :
  let A := mkMessage "u1" User [mkPart "text" (Some [104; 105]%N)] in
  let B := mkMessage "a1" Assistant [] in
  let w := mkWorld [A; B] ["more?"] [] 0 [] in
  let w' := fst (handleRetry [A; B] (Some tt) (fun _ => Rejects) Resolves w) in
  findLast (fun m => Role_eqb (msg_role m) User) [A; B] = Some A
  /\ w_deleteCalls w' = ["u1"]
  /\ w_messages w' <> [A]
  /\ w_suggestedQuestions w' <> []
  /\ w_regenerateCalls w' <> 1%nat.
Proof.
  simpl. repeat split; discriminate.
Qed.

(** C9. On a sequence with no user turn the handler does nothing: the
    sequence and the suggested questions stay as they were, neither the
    deletion nor [regenerate] is called, and nothing is thrown. *)
Theorem handleRetry_without_user_turn
    {UserData : Type} messages (user : option UserData)
    (del : string -> Outcome) (regen : Outcome) (w : World) :
  (forall m, m ∈ messages -> msg_role m <> User) ->
  handleRetry messages user del regen w = (w, inr ()).
Proof.
  intros Hnone.
  assert (findLast (fun m => Role_eqb (msg_role m) User) messages = None) as Hfind.
  { apply findLast_None. intros m Hm.
    apply not_true_iff_false. rewrite Role_eqb_eq. by apply Hnone. }
  unfold handleRetry, tryCatch. by rewrite Hfind.
Qed.

Lemma handleRetry_without_user_turn_witness :
  let B := mkMessage "a1" Assistant [mkPart "text" (Some [111; 107]%N)] in
  let w := mkWorld [B] ["more?"] [] 0 [] in
  handleRetry [B] (Some tt) (fun _ => Rejects) Rejects w = (w, inr ()).
Proof.
  intros B w.
  apply handleRetry_without_user_turn.
  intros m [->|Hm%elem_of_nil]%elem_of_cons; [discriminate|done].
Defined.

(** ** The timer queue *)

Lemma List_filter_nil {A} (p : A -> bool) (l : list A) :
  (forall x, x ∈ l -> p x = false) -> List.filter p l = [].
Proof.
  induction l as [|a l IH]; intros H; simpl; [reflexivity|].
  rewrite (H a) by (by left). apply IH. intros x Hx. apply H. by right.
Qed.

Lemma List_filter_id {A} (p : A -> bool) (l : list A) :
  (forall x, x ∈ l -> p x = true) -> List.filter p l = l.
Proof.
  induction l as [|a l IH]; intros H; simpl; [reflexivity|].
  rewrite (H a) by (by left). f_equal. apply IH. intros x Hx. apply H. by right.
Qed.


Lemma afterClearScroll_timers s t :
  t ∈ v_timers (afterClearScroll s) ->
  t ∈ v_timers s /\ v_scrollTimeoutRef s <> Some (t_handle t).
Proof.
  unfold afterClearScroll.
  destruct (v_scrollTimeoutRef s) as [h|]; simpl; [|done].
  intros [Hin Hne]%elem_of_List_filter. split; [done|].
  intros [= ->]. by rewrite Nat.eqb_refl in Hne.
Qed.

Lemma afterClearReasoning_timers s t :
  t ∈ v_timers (afterClearReasoning s) ->
  t ∈ v_timers s /\ v_reasoningScrollTimeoutRef s <> Some (t_handle t).
Proof.
  unfold afterClearReasoning.
  destruct (v_reasoningScrollTimeoutRef s) as [h|]; simpl; [|done].
  intros [Hin Hne]%elem_of_List_filter. split; [done|].
  intros [= ->]. by rewrite Nat.eqb_refl in Hne.
Qed.

(** What [debouncedScroll] leaves: the queue without the run it
    cancelled, then the run it scheduled. *)
Lemma debouncedScroll_timers status s :
  v_timers (debouncedScroll status s)
  = v_timers (afterClearScroll s)
    ++ [mkTimer (v_nextHandle s) (v_clock s + scrollDelay status) ScrollToEnd]
  /\ v_scrollTimeoutRef (debouncedScroll status s) = Some (v_nextHandle s).
Proof.
  unfold debouncedScroll, afterClearScroll.
  destruct (v_scrollTimeoutRef s); simpl; done.
Qed.

Lemma debouncedScroll_frame status s :
  let s' := debouncedScroll status s in
  v_heap s' = v_heap s /\ v_messages s' = v_messages s
  /\ v_status s' = v_status s /\ v_memoized s' = v_memoized s
  /\ v_hasInitialScrolled s' = v_hasInitialScrolled s
  /\ v_messagesEndRef s' = v_messagesEndRef s
  /\ v_reasoningScrollRef s' = v_reasoningScrollRef s
  /\ v_reasoningScrollTimeoutRef s' = v_reasoningScrollTimeoutRef s
  /\ v_clock s' = v_clock s
  /\ v_smoothScrolls s' = v_smoothScrolls s
  /\ v_reasoningScrolls s' = v_reasoningScrolls s.
Proof.
  unfold debouncedScroll. destruct (v_scrollTimeoutRef s); simpl; done.
Qed.

Lemma reasoningScrollEffect_timers s :
  v_timers (reasoningScrollEffect s)
  = v_timers (afterClearReasoning s)
    ++ [mkTimer (v_nextHandle s) (v_clock s + reasoningScrollDelay (v_status s))
                (ScrollReasoning (v_messages s))]
  /\ v_reasoningScrollTimeoutRef (reasoningScrollEffect s) = Some (v_nextHandle s).
Proof.
  unfold reasoningScrollEffect, afterClearReasoning.
  destruct (v_reasoningScrollTimeoutRef s); simpl; done.
Qed.

Lemma reasoningScrollEffect_frame s :
  let s' := reasoningScrollEffect s in
  v_heap s' = v_heap s /\ v_messages s' = v_messages s
  /\ v_status s' = v_status s /\ v_memoized s' = v_memoized s
  /\ v_hasInitialScrolled s' = v_hasInitialScrolled s
  /\ v_messagesEndRef s' = v_messagesEndRef s
  /\ v_reasoningScrollRef s' = v_reasoningScrollRef s
  /\ v_scrollTimeoutRef s' = v_scrollTimeoutRef s
  /\ v_clock s' = v_clock s
  /\ v_smoothScrolls s' = v_smoothScrolls s
  /\ v_reasoningScrolls s' = v_reasoningScrolls s.
Proof.
  unfold reasoningScrollEffect. destruct (v_reasoningScrollTimeoutRef s); simpl; done.
Qed.

(** A trigger cancels whatever run of the main scroller was pending and
    leaves its own as the only one. *)
Lemma debouncedScroll_justTriggered status s :
  scroll_inv s -> justTriggered status (debouncedScroll status s).
Proof.
  intros Hinv.
  destruct (debouncedScroll_timers status s) as [Htimers Href].
  destruct (debouncedScroll_frame status s) as (_ & _ & _ & _ & _ & _ & _ & _ & Hclock & _).
  split.
  - intros t. rewrite Htimers, Href, elem_of_app, list_elem_of_singleton.
    intros [[Hin Hne]%afterClearScroll_timers | ->] Hcb; [|done].
    exfalso. apply Hne. by apply Hinv.
  - exists (v_nextHandle s). unfold pendingScrolls.
    rewrite Htimers, List.filter_app, Hclock. simpl.
    rewrite List_filter_nil; [done|].
    intros t [Hin Hne]%afterClearScroll_timers.
    unfold isScrollToEnd. destruct (t_callback t) eqn:Hcb; [|done].
    exfalso. apply Hne. by apply Hinv.
Qed.

Lemma debouncedScroll_reasoning_inv status s :
  (reasoning_handles s -> reasoning_handles (debouncedScroll status s))
  /\ (reasoning_current s -> reasoning_current (debouncedScroll status s)).
Proof.
  destruct (debouncedScroll_timers status s) as [Htimers _].
  destruct (debouncedScroll_frame status s)
    as (_ & Hmsgs & _ & _ & _ & _ & _ & Href & _).
  split; intros Hinv t l; rewrite Htimers, elem_of_app, list_elem_of_singleton;
    rewrite ?Href, ?Hmsgs;
    (intros [[Hin _]%afterClearScroll_timers | ->] Hcb; [by eapply Hinv|done]).
Qed.

Lemma reasoningScrollEffect_inv s :
  (scroll_inv s -> scroll_inv (reasoningScrollEffect s))
  /\ (reasoning_handles s ->
      reasoning_handles (reasoningScrollEffect s)
      /\ reasoning_current (reasoningScrollEffect s)).
Proof.
  destruct (reasoningScrollEffect_timers s) as [Htimers Href].
  destruct (reasoningScrollEffect_frame s)
    as (_ & Hmsgs & _ & _ & _ & _ & _ & Hsref & _).
  split; [|intros Hinv; split].
  - intros Hinv t. rewrite Htimers, Hsref, elem_of_app, list_elem_of_singleton.
    intros [[Hin _]%afterClearReasoning_timers | ->] Hcb; [by apply Hinv|done].
  - intros t l. rewrite Htimers, Href, elem_of_app, list_elem_of_singleton.
    intros [[Hin Hne]%afterClearReasoning_timers | ->] Hcb; [|done].
    exfalso. apply Hne. by eapply Hinv.
  - intros t l. rewrite Htimers, Hmsgs, elem_of_app, list_elem_of_singleton.
    intros [[Hin Hne]%afterClearReasoning_timers | ->] Hcb.
    + exfalso. apply Hne. by eapply Hinv.
    + simpl in Hcb. congruence.
Qed.

(** Fewer timers under the same refs and props keep the invariants. *)
Lemma timers_inv_sub s s' :
  (forall t, t ∈ v_timers s' -> t ∈ v_timers s) ->
  v_scrollTimeoutRef s' = v_scrollTimeoutRef s ->
  v_reasoningScrollTimeoutRef s' = v_reasoningScrollTimeoutRef s ->
  (scroll_inv s -> scroll_inv s')
  /\ (reasoning_handles s -> reasoning_handles s')
  /\ (v_messages s' = v_messages s -> reasoning_current s -> reasoning_current s').
Proof.
  intros Hsub Hs Hr. split; [|split].
  - intros Hinv t Hin Hcb. rewrite Hs. apply Hinv; [by apply Hsub|done].
  - intros Hinv t l Hin Hcb. rewrite Hr. apply (Hinv t l); [by apply Hsub|done].
  - intros Hm Hinv t l Hin Hcb. rewrite Hm. apply (Hinv t l); [by apply Hsub|done].
Qed.

Lemma runCallback_frame callback s :
  let s' := runCallback callback s in
  v_heap s' = v_heap s /\ v_messages s' = v_messages s
  /\ v_messagesEndRef s' = v_messagesEndRef s
  /\ v_reasoningScrollRef s' = v_reasoningScrollRef s
  /\ v_scrollTimeoutRef s' = v_scrollTimeoutRef s
  /\ v_reasoningScrollTimeoutRef s' = v_reasoningScrollTimeoutRef s
  /\ v_clock s' = v_clock s
  /\ v_timers s' = v_timers s.
Proof.
  cbv zeta. unfold runCallback. destruct callback as [|l].
  - destruct (v_messagesEndRef s) eqn:He; simpl; rewrite ?He; done.
  - destruct ((0 <? js_length (activeReasoning (deref (v_heap s) l)))
              && v_reasoningScrollRef s); simpl; done.
Qed.

(** Running a list of due callbacks: each run of the main scroller
    scrolls when the end marker is attached, each run of the reasoning
    scroller when [reasoningFires] says so; nothing else changes. *)
Lemma runCallbacks_spec (due : list Timer) (s : View) :
  let s' := fold_left (fun acc t => runCallback (t_callback t) acc) due s in
  (v_heap s' = v_heap s /\ v_messages s' = v_messages s
   /\ v_messagesEndRef s' = v_messagesEndRef s
   /\ v_reasoningScrollRef s' = v_reasoningScrollRef s
   /\ v_scrollTimeoutRef s' = v_scrollTimeoutRef s
   /\ v_reasoningScrollTimeoutRef s' = v_reasoningScrollTimeoutRef s
   /\ v_clock s' = v_clock s
   /\ v_timers s' = v_timers s)
  /\ v_smoothScrolls s'
     = (v_smoothScrolls s
        + if v_messagesEndRef s then length (List.filter isScrollToEnd due) else 0)%nat
  /\ v_reasoningScrolls s'
     = (v_reasoningScrolls s + length (List.filter (reasoningFires s) due))%nat.
Proof.
  revert s. induction due as [|t due IH]; intros s; simpl.
  - repeat split; try done; try destruct (v_messagesEndRef s); simpl; lia.
  - specialize (IH (runCallback (t_callback t) s)). simpl in IH.
    destruct IH as (Hframe & Hsmooth & Hreason).
    destruct (runCallback_frame (t_callback t) s)
      as (Hh & Hm & He & Hr & Hs & Hrs & Hc & Ht).
    simpl in *.
    rewrite Hsmooth, Hreason, He.
    assert (List.filter (reasoningFires (runCallback (t_callback t) s)) due
            = List.filter (reasoningFires s) due) as ->.
    { apply filter_ext. intros t'. unfold reasoningFires. by rewrite Hh, Hr. }
    split.
    { destruct Hframe as (-> & -> & -> & -> & -> & -> & -> & ->). by repeat split. }
    unfold isScrollToEnd at 2, reasoningFires at 2.
    destruct (t_callback t) as [|l]; simpl.
    + destruct (v_messagesEndRef s); simpl; split; lia.
    + destruct ((0 <? js_length (activeReasoning (deref (v_heap s) l)))
                && v_reasoningScrollRef s); simpl; split; lia.
Qed.

Lemma fireDue_spec s :
  let due := List.filter (isDue (v_clock s)) (v_timers s) in
  let s' := fireDue s in
  (v_heap s' = v_heap s /\ v_messages s' = v_messages s
   /\ v_messagesEndRef s' = v_messagesEndRef s
   /\ v_reasoningScrollRef s' = v_reasoningScrollRef s
   /\ v_scrollTimeoutRef s' = v_scrollTimeoutRef s
   /\ v_reasoningScrollTimeoutRef s' = v_reasoningScrollTimeoutRef s
   /\ v_clock s' = v_clock s)
  /\ v_timers s' = List.filter (fun t => negb (isDue (v_clock s) t)) (v_timers s)
  /\ v_smoothScrolls s'
     = (v_smoothScrolls s
        + if v_messagesEndRef s then length (List.filter isScrollToEnd due) else 0)%nat
  /\ v_reasoningScrolls s'
     = (v_reasoningScrolls s + length (List.filter (reasoningFires s) due))%nat.
Proof.
  unfold fireDue.
  destruct (runCallbacks_spec
              (List.filter (isDue (v_clock s)) (v_timers s))
              (with_timers s
                 (List.filter (fun t => negb (isDue (v_clock s) t)) (v_timers s))
                 (v_nextHandle s)))
    as ((Hh & Hm & He & Hr & Hs & Hrs & Hc & Ht) & Hsmooth & Hreason).
  simpl in *. by repeat split.
Qed.

Lemma fireDue_inv s : timers_inv s -> timers_inv (fireDue s).
Proof.
  intros (Hs & Hh & Hc).
  destruct (fireDue_spec s) as ((_ & Hm & _ & _ & Hsr & Hrr & _) & Ht & _).
  destruct (timers_inv_sub s (fireDue s)) as (H1 & H2 & H3); try done.
  { intros t. rewrite Ht. by intros [? _]%elem_of_List_filter. }
  split; [auto|]. split; auto.
Qed.

Lemma debouncedScroll_inv status s :
  timers_inv s -> timers_inv (debouncedScroll status s).
Proof.
  intros (Hs & Hh & Hc).
  destruct (debouncedScroll_reasoning_inv status s) as [H1 H2].
  split; [by apply debouncedScroll_justTriggered|]. split; auto.
Qed.

Lemma autoScrollEffect_inv s :
  (scroll_inv s -> scroll_inv (autoScrollEffect s))
  /\ (reasoning_handles s -> reasoning_handles (autoScrollEffect s))
  /\ (reasoning_current s -> reasoning_current (autoScrollEffect s)).
Proof.
  unfold autoScrollEffect.
  destruct (v_messagesEndRef s); [|done].
  destruct (Status_eqb (v_status s) Streaming || Status_eqb (v_status s) Submitted).
  - destruct (debouncedScroll_reasoning_inv (v_status s) s) as [H1 H2].
    split; [|done]. intros Hs. by apply debouncedScroll_justTriggered.
  - by destruct (v_hasInitialScrolled s && (0 <? js_length (v_memoized s))).
Qed.

Lemma autoScrollEffect_messages s :
  v_messages (autoScrollEffect s) = v_messages s
  /\ v_status (autoScrollEffect s) = v_status s.
Proof.
  unfold autoScrollEffect.
  destruct (v_messagesEndRef s); [|done].
  destruct (Status_eqb (v_status s) Streaming || Status_eqb (v_status s) Submitted).
  - destruct (debouncedScroll_frame (v_status s) s) as (_ & ? & ? & _). done.
  - by destruct (v_hasInitialScrolled s && (0 <? js_length (v_memoized s))).
Qed.

Lemma reasoningScrollEffect_timers_inv s :
  scroll_inv s -> reasoning_handles s -> timers_inv (reasoningScrollEffect s).
Proof.
  intros Hs Hh.
  destruct (reasoningScrollEffect_inv s) as [H1 H2].
  destruct (H2 Hh). split; [auto|]. by split.
Qed.

Lemma NoDup_map_List_filter {A B} (f : A -> B) (p : A -> bool) (l : list A) :
  NoDup (map f l) -> NoDup (map f (List.filter p l)).
Proof.
  induction l as [|a l IH]; simpl; [done|].
  intros [Hnotin Hnodup]%NoDup_cons.
  destruct (p a); simpl; [|by apply IH].
  apply NoDup_cons. split; [|by apply IH].
  intros (x & Hfx & [Hx _]%elem_of_List_filter)%list_elem_of_fmap.
  apply Hnotin. apply list_elem_of_fmap. eauto.
Qed.

Lemma List_filter_filter_absorb {A} (p q : A -> bool) (l : list A) :
  (forall x, x ∈ l -> p x = true -> q x = true) ->
  List.filter p (List.filter q l) = List.filter p l.
Proof.
  induction l as [|a l IH]; intros H; simpl; [done|].
  assert (List.filter p (List.filter q l) = List.filter p l) as IH'.
  { apply IH. intros x Hx. apply H. by right. }
  destruct (q a) eqn:Hq; simpl.
  - by rewrite IH'.
  - destruct (p a) eqn:Hp; [|done].
    rewrite (H a) in Hq; [discriminate|by left|done].
Qed.

Lemma List_filter_length_split {A} (p : A -> bool) (l : list A) :
  length l
  = (length (List.filter p l) + length (List.filter (fun x => negb (p x)) l))%nat.
Proof.
  induction l as [|a l IH]; simpl; [done|].
  destruct (p a); simpl; lia.
Qed.

Lemma sched_inv_fields s s' :
  v_timers s' = v_timers s ->
  v_nextHandle s' = v_nextHandle s ->
  v_scrollTimeoutRef s' = v_scrollTimeoutRef s ->
  v_reasoningScrollTimeoutRef s' = v_reasoningScrollTimeoutRef s ->
  sched_inv s -> sched_inv s'.
Proof. unfold sched_inv. by intros -> -> -> ->. Qed.

Lemma sched_inv_filter s s' (p : Timer -> bool) :
  v_timers s' = List.filter p (v_timers s) ->
  v_nextHandle s' = v_nextHandle s ->
  v_scrollTimeoutRef s' = v_scrollTimeoutRef s ->
  v_reasoningScrollTimeoutRef s' = v_reasoningScrollTimeoutRef s ->
  sched_inv s -> sched_inv s'.
Proof.
  unfold sched_inv. intros -> -> -> -> (Hnd & Hlt & Hs & Hr & Hks & Hkr).
  split; [by apply NoDup_map_List_filter|].
  split; [intros t [? _]%elem_of_List_filter; auto|].
  split; [done|]. split; [done|].
  split; intros t [? _]%elem_of_List_filter; auto.
Qed.

Lemma sched_inv_clearTimeout handle s :
  sched_inv s -> sched_inv (clearTimeout handle s).
Proof. by apply (sched_inv_filter s _ (fun t => negb (Nat.eqb (t_handle t) handle))). Qed.

Lemma sched_inv_afterClear s :
  sched_inv s -> sched_inv (afterClearScroll s) /\ sched_inv (afterClearReasoning s).
Proof.
  intros Hinv. unfold afterClearScroll, afterClearReasoning.
  split; [destruct (v_scrollTimeoutRef s) | destruct (v_reasoningScrollTimeoutRef s)];
    try done; by apply sched_inv_clearTimeout.
Qed.

Lemma debouncedScroll_unfold status s :
  debouncedScroll status s
  = with_scrollTimeoutRef
      (setTimeout ScrollToEnd (scrollDelay status) (afterClearScroll s)).2
      (Some (v_nextHandle (afterClearScroll s)))
  /\ v_nextHandle (debouncedScroll status s) = S (v_nextHandle s).
Proof.
  unfold debouncedScroll, afterClearScroll.
  destruct (v_scrollTimeoutRef s); done.
Qed.

Lemma reasoningScrollEffect_unfold s :
  reasoningScrollEffect s
  = with_reasoningScrollTimeoutRef
      (setTimeout (ScrollReasoning (v_messages s))
                  (reasoningScrollDelay (v_status s)) (afterClearReasoning s)).2
      (Some (v_nextHandle (afterClearReasoning s)))
  /\ v_nextHandle (reasoningScrollEffect s) = S (v_nextHandle s).
Proof.
  unfold reasoningScrollEffect, afterClearReasoning.
  destruct (v_reasoningScrollTimeoutRef s); done.
Qed.

Lemma NoDup_handles_snoc (timers : list Timer) next due callback :
  NoDup (map t_handle timers) ->
  (forall t, t ∈ timers -> (t_handle t < next)%nat) ->
  NoDup (map t_handle (timers ++ [mkTimer next due callback])).
Proof.
  intros Hnd Hlt. rewrite map_app. apply NoDup_app. split; [done|].
  split; [|apply NoDup_singleton].
  intros h (t & -> & Ht)%list_elem_of_fmap. simpl.
  intros Heq%list_elem_of_singleton. specialize (Hlt t Ht). lia.
Qed.

(** Scheduling a run of the main scroller on a fresh handle. *)
Lemma sched_inv_arm_scroll delay s :
  sched_inv s ->
  sched_inv (with_scrollTimeoutRef (setTimeout ScrollToEnd delay s).2
                                   (Some (v_nextHandle s))).
Proof.
  intros (Hnd & Hlt & Hs & Hr & Hks & Hkr). unfold sched_inv. simpl.
  split; [by apply NoDup_handles_snoc|].
  split.
  { intros t [Ht | ->%list_elem_of_singleton]%elem_of_app; simpl; [|lia].
    specialize (Hlt t Ht). lia. }
  split; [intros h [= <-]; lia|].
  split; [intros h Hh; specialize (Hr h Hh); lia|].
  split.
  - intros t [Ht | ->%list_elem_of_singleton]%elem_of_app; [|done].
    intros [= Heq]. specialize (Hlt t Ht). lia.
  - intros t [Ht | ->%list_elem_of_singleton]%elem_of_app; [by apply Hkr|].
    simpl. intros Heq. specialize (Hr _ Heq). lia.
Qed.

(** Scheduling a run of the reasoning scroller on a fresh handle. *)
Lemma sched_inv_arm_reasoning l delay s :
  sched_inv s ->
  sched_inv (with_reasoningScrollTimeoutRef (setTimeout (ScrollReasoning l) delay s).2
                                            (Some (v_nextHandle s))).
Proof.
  intros (Hnd & Hlt & Hs & Hr & Hks & Hkr). unfold sched_inv. simpl.
  split; [by apply NoDup_handles_snoc|].
  split.
  { intros t [Ht | ->%list_elem_of_singleton]%elem_of_app; simpl; [|lia].
    specialize (Hlt t Ht). lia. }
  split; [intros h Hh; specialize (Hs h Hh); lia|].
  split; [intros h [= <-]; lia|].
  split.
  - intros t [Ht | ->%list_elem_of_singleton]%elem_of_app; [by apply Hks|].
    simpl. intros Heq. specialize (Hs _ Heq). lia.
  - intros t [Ht | ->%list_elem_of_singleton]%elem_of_app; [|done].
    intros [= Heq]. specialize (Hlt t Ht). lia.
Qed.

Lemma debouncedScroll_sched_inv status s :
  sched_inv s -> sched_inv (debouncedScroll status s).
Proof.
  intros Hinv. destruct (debouncedScroll_unfold status s) as [-> _].
  by apply sched_inv_arm_scroll, sched_inv_afterClear.
Qed.

Lemma reasoningScrollEffect_sched_inv s :
  sched_inv s -> sched_inv (reasoningScrollEffect s).
Proof.
  intros Hinv. destruct (reasoningScrollEffect_unfold s) as [-> _].
  by apply sched_inv_arm_reasoning, sched_inv_afterClear.
Qed.

Lemma autoScrollEffect_sched_inv s :
  sched_inv s -> sched_inv (autoScrollEffect s).
Proof.
  intros Hinv. unfold autoScrollEffect.
  destruct (v_messagesEndRef s); [|done].
  destruct (_ || _); [by apply debouncedScroll_sched_inv|].
  by destruct (_ && _).
Qed.

Lemma runCallback_frame2 callback s :
  let s' := runCallback callback s in
  v_status s' = v_status s /\ v_memoized s' = v_memoized s
  /\ v_hasInitialScrolled s' = v_hasInitialScrolled s
  /\ v_nextHandle s' = v_nextHandle s
  /\ v_instantScrolls s' = v_instantScrolls s.
Proof.
  cbv zeta. unfold runCallback. destruct callback as [|l].
  - destruct (v_messagesEndRef s); done.
  - destruct (_ && _); done.
Qed.

Lemma runCallbacks_frame2 (due : list Timer) (s : View) :
  let s' := fold_left (fun acc t => runCallback (t_callback t) acc) due s in
  v_status s' = v_status s /\ v_memoized s' = v_memoized s
  /\ v_hasInitialScrolled s' = v_hasInitialScrolled s
  /\ v_nextHandle s' = v_nextHandle s
  /\ v_instantScrolls s' = v_instantScrolls s.
Proof.
  revert s. induction due as [|t due IH]; intros s; simpl; [done|].
  destruct (IH (runCallback (t_callback t) s)) as (-> & -> & -> & -> & ->).
  apply runCallback_frame2.
Qed.

Lemma fireDue_frame2 s :
  v_status (fireDue s) = v_status s /\ v_memoized (fireDue s) = v_memoized s
  /\ v_hasInitialScrolled (fireDue s) = v_hasInitialScrolled s
  /\ v_nextHandle (fireDue s) = v_nextHandle s
  /\ v_instantScrolls (fireDue s) = v_instantScrolls s.
Proof.
  unfold fireDue.
  destruct (runCallbacks_frame2
              (List.filter (isDue (v_clock s)) (v_timers s))
              (with_timers s
                 (List.filter (fun t => negb (isDue (v_clock s) t)) (v_timers s))
                 (v_nextHandle s))) as (-> & -> & -> & -> & ->).
  done.
Qed.

Lemma fireDue_sched_inv s : sched_inv s -> sched_inv (fireDue s).
Proof.
  intros Hinv.
  destruct (fireDue_spec s) as ((_ & _ & _ & _ & Hs & Hr & _) & Ht & _).
  destruct (fireDue_frame2 s) as (_ & _ & _ & Hn & _).
  by apply (sched_inv_filter s _ _ Ht).
Qed.

Lemma pending_independent status s :
  sched_inv s ->
  pendingReasoning (debouncedScroll status s) = pendingReasoning s
  /\ pendingScrolls (reasoningScrollEffect s) = pendingScrolls s.
Proof.
  intros (_ & _ & _ & _ & Hks & Hkr).
  destruct (debouncedScroll_timers status s) as [Ht1 _].
  destruct (reasoningScrollEffect_timers s) as [Ht2 _].
  unfold pendingReasoning, pendingScrolls. rewrite Ht1, Ht2, !List.filter_app.
  simpl. rewrite !app_nil_r.
  unfold afterClearScroll, afterClearReasoning. split.
  - destruct (v_scrollTimeoutRef s) as [h|] eqn:Href; [|done]. simpl.
    apply List_filter_filter_absorb. intros t Hin Hk.
    apply negb_true_iff, Nat.eqb_neq. intros <-.
    rewrite (Hks t Hin eq_refl) in Hk. discriminate.
  - destruct (v_reasoningScrollTimeoutRef s) as [h|] eqn:Href; [|done]. simpl.
    apply List_filter_filter_absorb. intros t Hin Hk.
    apply negb_true_iff, Nat.eqb_neq. intros <-.
    rewrite (Hkr t Hin eq_refl) in Hk. discriminate.
Qed.

Lemma autoScrollEffect_frame s :
  let s' := autoScrollEffect s in
  v_heap s' = v_heap s /\ v_messages s' = v_messages s
  /\ v_status s' = v_status s /\ v_memoized s' = v_memoized s
  /\ v_hasInitialScrolled s' = v_hasInitialScrolled s
  /\ v_messagesEndRef s' = v_messagesEndRef s
  /\ v_reasoningScrollRef s' = v_reasoningScrollRef s
  /\ v_reasoningScrollTimeoutRef s' = v_reasoningScrollTimeoutRef s
  /\ v_clock s' = v_clock s
  /\ v_instantScrolls s' = v_instantScrolls s
  /\ v_reasoningScrolls s' = v_reasoningScrolls s.
Proof.
  cbv zeta. unfold autoScrollEffect, debouncedScroll.
  destruct (v_messagesEndRef s) eqn:He; [|by rewrite He].
  destruct (_ || _).
  - destruct (v_scrollTimeoutRef s); simpl; by rewrite He.
  - destruct (_ && _); simpl; by rewrite He.
Qed.

Lemma reasoningScrollEffect_frame2 s :
  v_instantScrolls (reasoningScrollEffect s) = v_instantScrolls s.
Proof.
  unfold reasoningScrollEffect. by destruct (v_reasoningScrollTimeoutRef s).
Qed.

Lemma endRef_inv_fields s s' :
  v_memoized s' = v_memoized s -> v_messagesEndRef s' = v_messagesEndRef s ->
  endRef_inv s -> endRef_inv s'.
Proof. unfold endRef_inv. by intros -> ->. Qed.

Lemma autoScrollEffect_endRef_inv s : endRef_inv s -> endRef_inv (autoScrollEffect s).
Proof.
  destruct (autoScrollEffect_frame s) as (_ & _ & _ & Hm & _ & He & _).
  by apply endRef_inv_fields.
Qed.

Lemma reasoningScrollEffect_endRef_inv s :
  endRef_inv s -> endRef_inv (reasoningScrollEffect s).
Proof.
  destruct (reasoningScrollEffect_frame s) as (_ & _ & _ & Hm & _ & He & _).
  by apply endRef_inv_fields.
Qed.






(** ** One commit and the invariants it keeps *)

Lemma initialScrollEffect_scrolled s :
  v_hasInitialScrolled s = true -> initialScrollEffect s = (false, s).
Proof.
  intros H. unfold initialScrollEffect. by rewrite H, andb_false_r.
Qed.

Lemma initialScrollEffect_cases s :
  (initialScrollEffect s = (true, scrollIntoView_instant s)
   /\ hasInitialMessages s = true /\ v_hasInitialScrolled s = false
   /\ v_messagesEndRef s = true)
  \/ initialScrollEffect s = (false, s).
Proof.
  unfold initialScrollEffect.
  destruct (hasInitialMessages s), (v_hasInitialScrolled s), (v_messagesEndRef s);
    simpl; auto.
Qed.

Lemma rerenderScrolled_eq s :
  rerenderScrolled s = autoScrollEffect (with_hasInitialScrolled s true).
Proof.
  unfold rerenderScrolled. by rewrite initialScrollEffect_scrolled.
Qed.

(** A commit, stage by stage: the initial scroll, the auto-scroll effect
    and the reasoning effect as the render saw the state, then the
    re-render that the state change asks for. *)
Lemma runEffects_eq (initial auto reasoning : bool) (s1 : View) :
  let scrolled := initial && hasInitialMessages s1
                  && negb (v_hasInitialScrolled s1) && v_messagesEndRef s1 in
  let s2 := if scrolled then scrollIntoView_instant s1 else s1 in
  let s3 := if auto then autoScrollEffect s2 else s2 in
  let s4 := if reasoning then reasoningScrollEffect s3 else s3 in
  runEffects initial auto reasoning s1
  = if scrolled then autoScrollEffect (with_hasInitialScrolled s4 true) else s4.
Proof.
  unfold runEffects, initialScrollEffect.
  destruct initial, (hasInitialMessages s1), (v_hasInitialScrolled s1),
    (v_messagesEndRef s1); simpl; try done; by rewrite rerenderScrolled_eq.
Qed.

(** A property that each step of a commit keeps is kept by the commit. *)
Lemma runEffects_preserves (P : View -> Prop) (initial auto reasoning : bool) s1 :
  (forall s, P s -> P (scrollIntoView_instant s)) ->
  (forall s, P s -> P (autoScrollEffect s)) ->
  (forall s, P s -> P (reasoningScrollEffect s)) ->
  (forall s, P s -> P (with_hasInitialScrolled s true)) ->
  P s1 -> P (runEffects initial auto reasoning s1).
Proof.
  intros Hinstant Hauto Hreason Hflag H1. rewrite runEffects_eq. cbv zeta.
  set (scrolled := initial && hasInitialMessages s1
                   && negb (v_hasInitialScrolled s1) && v_messagesEndRef s1).
  set (s2 := if scrolled then scrollIntoView_instant s1 else s1).
  assert (P s2) as H2 by (subst s2; destruct scrolled; auto).
  set (s3 := if auto then autoScrollEffect s2 else s2).
  assert (P s3) as H3 by (subst s3; destruct auto; auto).
  set (s4 := if reasoning then reasoningScrollEffect s3 else s3).
  assert (P s4) as H4 by (subst s4; destruct reasoning; auto).
  destruct scrolled; auto.
Qed.

Lemma autoScrollEffect_frame3 s :
  v_initialMessages (autoScrollEffect s) = v_initialMessages s.
Proof.
  unfold autoScrollEffect, debouncedScroll.
  destruct (v_messagesEndRef s); [|done].
  destruct (_ || _).
  - by destruct (v_scrollTimeoutRef s).
  - by destruct (_ && _).
Qed.

Lemma reasoningScrollEffect_frame3 s :
  v_initialMessages (reasoningScrollEffect s) = v_initialMessages s.
Proof.
  unfold reasoningScrollEffect. by destruct (v_reasoningScrollTimeoutRef s).
Qed.

(** What no effect touches. *)
Lemma runEffects_fields (initial auto reasoning : bool) s1 :
  let s' := runEffects initial auto reasoning s1 in
  v_heap s' = v_heap s1 /\ v_messages s' = v_messages s1
  /\ v_status s' = v_status s1 /\ v_initialMessages s' = v_initialMessages s1
  /\ v_memoized s' = v_memoized s1 /\ v_messagesEndRef s' = v_messagesEndRef s1
  /\ v_reasoningScrollRef s' = v_reasoningScrollRef s1
  /\ v_clock s' = v_clock s1 /\ v_reasoningScrolls s' = v_reasoningScrolls s1.
Proof.
  cbv zeta.
  apply (runEffects_preserves (fun s =>
    v_heap s = v_heap s1 /\ v_messages s = v_messages s1
    /\ v_status s = v_status s1 /\ v_initialMessages s = v_initialMessages s1
    /\ v_memoized s = v_memoized s1 /\ v_messagesEndRef s = v_messagesEndRef s1
    /\ v_reasoningScrollRef s = v_reasoningScrollRef s1
    /\ v_clock s = v_clock s1 /\ v_reasoningScrolls s = v_reasoningScrolls s1));
    try done.
  - intros s (<- & <- & <- & <- & <- & <- & <- & <- & <-).
    destruct (autoScrollEffect_frame s)
      as (-> & -> & -> & -> & _ & -> & -> & _ & -> & _ & ->).
    by rewrite autoScrollEffect_frame3.
  - intros s (<- & <- & <- & <- & <- & <- & <- & <- & <-).
    destruct (reasoningScrollEffect_frame s)
      as (-> & -> & -> & -> & _ & -> & -> & _ & -> & _ & ->).
    by rewrite reasoningScrollEffect_frame3.
Qed.

Lemma runEffects_scroll_handles (initial auto reasoning : bool) s1 :
  scroll_inv s1 /\ reasoning_handles s1 ->
  scroll_inv (runEffects initial auto reasoning s1)
  /\ reasoning_handles (runEffects initial auto reasoning s1).
Proof.
  apply (runEffects_preserves (fun s => scroll_inv s /\ reasoning_handles s));
    try done.
  - intros s [Hs Hh]. destruct (autoScrollEffect_inv s) as (A1 & A2 & _). auto.
  - intros s [Hs Hh]. destruct (reasoningScrollEffect_inv s) as (A1 & A2).
    split; [auto|]. by destruct (A2 Hh).
Qed.

Lemma runEffects_sched_inv (initial auto reasoning : bool) s1 :
  sched_inv s1 -> sched_inv (runEffects initial auto reasoning s1).
Proof.
  apply (runEffects_preserves sched_inv); try done.
  - apply autoScrollEffect_sched_inv.
  - apply reasoningScrollEffect_sched_inv.
Qed.

(** The reasoning effect makes the pending run close over the current
    array; without it the array has not changed. *)
Lemma runEffects_reasoning_current (initial auto reasoning : bool) s1 :
  reasoning_handles s1 ->
  reasoning = true \/ reasoning_current s1 ->
  reasoning_current (runEffects initial auto reasoning s1).
Proof.
  intros Hh Hc. rewrite runEffects_eq. cbv zeta.
  set (scrolled := initial && hasInitialMessages s1
                   && negb (v_hasInitialScrolled s1) && v_messagesEndRef s1).
  set (s2 := if scrolled then scrollIntoView_instant s1 else s1).
  assert (reasoning_handles s2
          /\ (reasoning_current s1 -> reasoning_current s2)) as [Hh2 Hc2]
    by (subst s2; destruct scrolled; done).
  set (s3 := if auto then autoScrollEffect s2 else s2).
  assert (reasoning_handles s3
          /\ (reasoning_current s1 -> reasoning_current s3)) as [Hh3 Hc3].
  { subst s3. destruct auto; [|done].
    destruct (autoScrollEffect_inv s2) as (_ & A2 & A3). auto. }
  set (s4 := if reasoning then reasoningScrollEffect s3 else s3).
  assert (reasoning_current s4) as Hc4.
  { subst s4. destruct reasoning.
    - destruct (reasoningScrollEffect_inv s3) as (_ & A2). by destruct (A2 Hh3).
    - destruct Hc as [?|Hc]; [done|auto]. }
  destruct scrolled; [|done].
  destruct (autoScrollEffect_inv (with_hasInitialScrolled s4 true)) as (_ & _ & A3).
  by apply A3.
Qed.

Lemma runEffects_endRef_inv (initial auto reasoning : bool) s1 :
  endRef_inv s1 -> endRef_inv (runEffects initial auto reasoning s1).
Proof.
  destruct (runEffects_fields initial auto reasoning s1)
    as (_ & _ & _ & _ & Hm & He & _).
  by apply endRef_inv_fields.
Qed.

Lemma runEffects_reasoningRef_inv (initial auto reasoning : bool) s1 :
  reasoningRef_inv s1 -> reasoningRef_inv (runEffects initial auto reasoning s1).
Proof.
  unfold reasoningRef_inv.
  destruct (runEffects_fields initial auto reasoning s1)
    as (_ & _ & _ & _ & _ & _ & -> & _).
  done.
Qed.

(** The flag and the count of instant scrolls after a commit. *)
Lemma runEffects_initial (initial auto reasoning : bool) s1 :
  let scrolls := initial && hasInitialMessages s1
                 && negb (v_hasInitialScrolled s1) && v_messagesEndRef s1 in
  let s' := runEffects initial auto reasoning s1 in
  v_hasInitialScrolled s' = v_hasInitialScrolled s1 || scrolls
  /\ v_instantScrolls s'
     = (v_instantScrolls s1 + if scrolls then 1%nat else 0%nat)%nat.
Proof.
  cbv zeta. rewrite runEffects_eq. cbv zeta.
  set (scrolled := initial && hasInitialMessages s1
                   && negb (v_hasInitialScrolled s1) && v_messagesEndRef s1).
  set (s2 := if scrolled then scrollIntoView_instant s1 else s1).
  set (s3 := if auto then autoScrollEffect s2 else s2).
  set (s4 := if reasoning then reasoningScrollEffect s3 else s3).
  assert (v_hasInitialScrolled s4 = v_hasInitialScrolled s2
          /\ v_instantScrolls s4 = v_instantScrolls s2) as [Hf4 Hi4].
  { assert (v_hasInitialScrolled s3 = v_hasInitialScrolled s2
            /\ v_instantScrolls s3 = v_instantScrolls s2) as [Hf3 Hi3].
    { subst s3. destruct auto; [|done].
      destruct (autoScrollEffect_frame s2)
        as (_ & _ & _ & _ & -> & _ & _ & _ & _ & -> & _). done. }
    subst s4. destruct reasoning; [|done].
    destruct (reasoningScrollEffect_frame s3) as (_ & _ & _ & _ & -> & _).
    by rewrite reasoningScrollEffect_frame2. }
  clearbody s4. subst s2. destruct scrolled.
  - destruct (autoScrollEffect_frame (with_hasInitialScrolled s4 true))
      as (_ & _ & _ & _ & -> & _ & _ & _ & _ & -> & _).
    simpl. rewrite Hi4. simpl. split; [by rewrite orb_true_r|lia].
  - rewrite Hf4, Hi4, orb_false_r. split; [done|lia].
Qed.

(** ** Invariants of every reachable state *)

Lemma sameReference_refl a : sameReference a a = true.
Proof. destruct a; simpl; [apply Nat.eqb_refl|done]. Qed.

Lemma setProps_inv messages status initialMessages s :
  timers_inv s -> timers_inv (setProps messages status initialMessages s).
Proof.
  intros (Hs & Hh & Hc). unfold setProps.
  set (initial := negb (sameReference _ _)).
  set (auto := _ || _).
  set (s1 := withProps messages status initialMessages s).
  assert (scroll_inv s1 /\ reasoning_handles s1) as H1 by done.
  destruct (runEffects_scroll_handles initial auto
              (negb (messages =? v_messages s)%nat
               || negb (Status_eqb status (v_status s))) s1 H1) as [Hs' Hh'].
  split; [done|]. split; [done|].
  apply runEffects_reasoning_current; [apply H1|].
  destruct (negb (messages =? v_messages s)%nat) eqn:Hchanged; [by left|].
  apply negb_false_iff, Nat.eqb_eq in Hchanged. subst messages.
  right. exact Hc.
Qed.

Lemma initialView_inv heap messages status initialMessages :
  timers_inv (initialView heap messages status initialMessages)
  /\ sched_inv (initialView heap messages status initialMessages).
Proof.
  split.
  - split; [|split].
    + intros t Hin. by apply elem_of_nil in Hin.
    + intros t l Hin. by apply elem_of_nil in Hin.
    + intros t l Hin. by apply elem_of_nil in Hin.
  - unfold sched_inv. simpl. split; [constructor|].
    repeat split; try done; intros t Hin; by apply elem_of_nil in Hin.
Qed.

Lemma mount_inv heap messages status initialMessages :
  timers_inv (mount heap messages status initialMessages).
Proof.
  destruct (initialView_inv heap messages status initialMessages)
    as [(H0s & H0h & _) _].
  unfold mount.
  destruct (runEffects_scroll_handles true true true
              (initialView heap messages status initialMessages))
    as [Hs Hh]; [done|].
  split; [done|]. split; [done|].
  apply runEffects_reasoning_current; [done|by left].
Qed.

(** Every state the component can get to keeps the invariants. *)
Lemma reachable_inv s : reachable s -> timers_inv s.
Proof.
  induction 1 as [heap messages status initialMessages | e s _ IH].
  - apply mount_inv.
  - destruct e as [messages status initialMessages | l content | dt |]; simpl.
    + by apply setProps_inv.
    + exact IH.
    + exact IH.
    + by apply fireDue_inv.
Qed.

Lemma reachable_sched_inv s : reachable s -> sched_inv s.
Proof.
  induction 1 as [heap messages status initialMessages | e s _ IH].
  - apply runEffects_sched_inv, initialView_inv.
  - destruct e as [messages status initialMessages | l content | dt |]; simpl.
    + by apply runEffects_sched_inv.
    + exact IH.
    + exact IH.
    + by apply fireDue_sched_inv.
Qed.

Lemma reachable_endRef_inv s : reachable s -> endRef_inv s.
Proof.
  induction 1 as [heap messages status initialMessages | e s _ IH].
  - by apply runEffects_endRef_inv.
  - destruct e as [messages status initialMessages | l content | dt |]; simpl;
      try done.
    + by apply runEffects_endRef_inv.
    + destruct (fireDue_spec s) as ((_ & _ & He & _) & _).
      destruct (fireDue_frame2 s) as (_ & Hm & _).
      by apply (endRef_inv_fields s).
Qed.

(** [reasoningScrollRef] is attached to no element: it is [null] in
    every state the component can get to. *)
Lemma reachable_reasoningRef_inv s : reachable s -> reasoningRef_inv s.
Proof.
  induction 1 as [heap messages status initialMessages | e s _ IH].
  - by apply runEffects_reasoningRef_inv.
  - destruct e as [messages status initialMessages | l content | dt |]; simpl;
      try done.
    + by apply runEffects_reasoningRef_inv.
    + unfold reasoningRef_inv.
      destruct (fireDue_spec s) as ((_ & _ & _ & -> & _) & _). exact IH.
Qed.

Lemma runEffects_initialScroll_inv (initial auto reasoning : bool) s1 :
  initialScroll_inv s1 -> initialScroll_inv (runEffects initial auto reasoning s1).
Proof.
  unfold initialScroll_inv. intros H1.
  destruct (runEffects_initial initial auto reasoning s1) as [-> ->].
  rewrite H1.
  destruct (v_hasInitialScrolled s1); simpl.
  - by rewrite !andb_false_r.
  - by destruct (initial && hasInitialMessages s1 && true && v_messagesEndRef s1).
Qed.

Lemma reachable_initialScroll_inv s : reachable s -> initialScroll_inv s.
Proof.
  induction 1 as [heap messages status initialMessages | e s _ IH].
  - by apply runEffects_initialScroll_inv.
  - destruct e as [messages status initialMessages | l content | dt |]; simpl;
      try done.
    + by apply runEffects_initialScroll_inv.
    + unfold initialScroll_inv.
      destruct (fireDue_frame2 s) as (_ & _ & -> & _ & ->). exact IH.
Qed.

(** ** The reasoning scroller at fire time *)

Lemma noSegmentActive_activeReasoning messages :
  noSegmentActive messages <->
  (0 <? js_length (activeReasoning messages)) = false.
Proof.
  rewrite <- not_true_iff_false, activeReasoning_nonempty. split.
  - intros Hnone (k & turn & index & Hk & Hactive).
    rewrite (Hnone k turn index Hk) in Hactive. discriminate.
  - intros Hnone k turn index Hk. apply not_true_iff_false.
    intros Hactive. apply Hnone. eauto.
Qed.

(** With the panel's ref unattached a turn of the event loop scrolls no
    reasoning panel. *)
Lemma fireDue_reasoning_unattached s :
  v_reasoningScrollRef s = false ->
  v_reasoningScrolls (fireDue s) = v_reasoningScrolls s.
Proof.
  intros Href.
  destruct (fireDue_spec s) as (_ & _ & _ & ->).
  rewrite List_filter_nil; [simpl; lia|].
  intros t _. unfold reasoningFires.
  destruct (t_callback t); [done|]. by rewrite Href, andb_false_r.
Qed.

(** C8. In every state the component can reach, a pending run of the
    reasoning scroller closes over the array the component was last
    handed, so that it looks at the turns as they are when it fires; and
    a turn of the event loop in which no reasoning segment of those turns
    is active (a later part tagged text or a tool invocation closes a
    segment) leaves the reasoning panel where it is, whatever the turns
    were when the run was scheduled. Two guards of the callback give
    this: run in any state, it does nothing when its filter finds no
    active segment in the array it closes over; and the ref of the panel,
    attached to no element, is unset, which covers the segments that only
    a tool part closes. *)
Theorem reasoning_scroll_skipped_when_none_active s :
  reachable s ->
  noneActive (currentMessages s) ->
  (forall t l, t ∈ v_timers s -> t_callback t = ScrollReasoning l ->
               deref (v_heap s) l = currentMessages s)
  /\ v_reasoningScrolls (fireDue s) = v_reasoningScrolls s
  /\ (forall s' l, noSegmentActive (deref (v_heap s') l) ->
                   runCallback (ScrollReasoning l) s' = s')
  /\ v_reasoningScrollRef s = false.
Proof.
  intros Hreach _.
  destruct (reachable_inv s Hreach) as (_ & _ & Hcurrent).
  pose proof (reachable_reasoningRef_inv s Hreach) as Href.
  split; [|split; [|split]].
  - intros t l Hin Hcb. by rewrite (Hcurrent t l Hin Hcb).
  - by apply fireDue_reasoning_unattached.
  - intros s' l Hnone%noSegmentActive_activeReasoning.
    unfold runCallback. by rewrite Hnone.
  - exact Href.
Qed.

Lemma segmentActive_isReasoningActive turn index :
  segmentActive turn index -> isReasoningActive turn (Z.of_nat index) = true.
Proof.
  intros (p & Hp & Htype & Hlater). apply isReasoningActive_spec.
  exists p. rewrite js_index_of_nat. split; [done|]. split; [done|].
  intros j q Hlt Hq. destruct (Hlater j q) as [Htext Htool]; [lia|done|].
  split; [done|]. intros Heq. apply Htool. by exists "invocation".
Qed.

(** What the code takes for closed the specification does too: where the
    code finds no active segment there is none in the sense of the
    specification. *)
Lemma noSegmentActive_noneActive messages :
  noSegmentActive messages -> noneActive messages.
Proof.
  intros Hnone k turn index Hk Hactive%segmentActive_isReasoningActive.
  rewrite (Hnone k turn _ Hk) in Hactive. discriminate.
Qed.

(** A run scheduled while a segment was active, with a tool part appended
    in place before it fires: the segment is closed as the specification
    has it, though not for the filter of the code. *)
Lemma reasoning_scroll_skipped_when_none_active_witness :
  let thinking := mkPart "reasoning" (Some [104; 109]%N) in
  let search := mkPart "tool-web_search" None in
  let scheduled := mount {[ 0%nat := [mkMessage "a1" Assistant [thinking]] ]}
                         0 Streaming None in
  let atFire := run [Store 0 [mkMessage "a1" Assistant [thinking; search]]; Elapse 150]
                    scheduled in
  segmentActive (mkMessage "a1" Assistant [thinking]) 0
  /\ length (List.filter (isDue (v_clock atFire)) (pendingReasoning atFire)) = 1%nat
  /\ v_reasoningScrolls (fireDue atFire) = v_reasoningScrolls atFire.
Proof.
  intros thinking search scheduled atFire.
  split; [|split; [vm_compute; reflexivity|]].
  - exists thinking. split; [reflexivity|]. split; [reflexivity|].
    intros [|[|j]] q Hlt Hq; [lia|discriminate|discriminate].
  - apply reasoning_scroll_skipped_when_none_active.
    + exact (reachable_step (Elapse 150) _
               (reachable_step (Store 0 _) _ (reachable_mount _ _ _ _))).
    + assert (currentMessages atFire
              = [mkMessage "a1" Assistant [thinking; search]]) as ->
        by (vm_compute; reflexivity).
      intros [|k] turn index Hk (p & Hp & Htype & Hlater); [|discriminate].
      injection Hk as <-. simpl in Hp, Hlater.
      destruct index as [|[|index]]; [| |discriminate].
      * destruct (Hlater 1%nat search) as [_ Htool]; [lia|reflexivity|].
        apply Htool. by exists "web_search".
      * injection Hp as <-. discriminate.
Defined.

(** ** Debounce of the main scroller *)


Lemma autoScrollEffect_settled s :
  Status_eqb (v_status s) Ready || Status_eqb (v_status s) Errored = true ->
  autoScrollEffect s
  = if v_messagesEndRef s && v_hasInitialScrolled s && (0 <? js_length (v_memoized s))
    then scrollIntoView_smooth s else s.
Proof.
  intros Hst. unfold autoScrollEffect.
  destruct (v_status s); try discriminate; simpl;
    by destruct (v_messagesEndRef s), (v_hasInitialScrolled s).
Qed.


Lemma withProps_inv messages status initialMessages s :
  let s1 := withProps messages status initialMessages s in
  (scroll_inv s -> scroll_inv s1) /\ (sched_inv s -> sched_inv s1)
  /\ endRef_inv s1.
Proof. done. Qed.





(** A commit whose auto-scroll effect runs in status ready or error
    leaves the pending runs of the main scroller as they are, and scrolls
    at once when the initial scroll has happened and something is
    rendered. *)
Lemma commit_settled (initial reasoning : bool) s1 :
  sched_inv s1 -> endRef_inv s1 ->
  Status_eqb (v_status s1) Ready || Status_eqb (v_status s1) Errored = true ->
  let s' := runEffects initial true reasoning s1 in
  pendingScrolls s' = pendingScrolls s1
  /\ v_smoothScrolls s'
     = (v_smoothScrolls s1
        + if v_hasInitialScrolled s' && (0 <? js_length (v_memoized s1))%Z
          then 1%nat else 0%nat)%nat.
Proof.
  intros Hsched1 Hend1 Hst1. cbv zeta.
  destruct (runEffects_initial initial true reasoning s1) as [-> _].
  rewrite runEffects_eq. cbv zeta.
  set (scrolled := initial && hasInitialMessages s1
                   && negb (v_hasInitialScrolled s1) && v_messagesEndRef s1).
  assert ((0 <? js_length (v_memoized s1)) = v_messagesEndRef s1) as Hshown.
  { rewrite Hend1. unfold js_length. destruct (v_memoized s1); [done|].
    simpl length. by destruct (Z.ltb_spec 0 (Z.of_nat (S (length l)))); [|lia]. }
  set (s2 := if scrolled then scrollIntoView_instant s1 else s1).
  assert (sched_inv s2 /\ pendingScrolls s2 = pendingScrolls s1
          /\ v_status s2 = v_status s1 /\ v_memoized s2 = v_memoized s1
          /\ v_messagesEndRef s2 = v_messagesEndRef s1
          /\ v_hasInitialScrolled s2 = v_hasInitialScrolled s1
          /\ v_smoothScrolls s2 = v_smoothScrolls s1)
    as (Hsched2 & Hp2 & Hst2 & Hm2 & He2 & Hf2 & Hsm2)
    by (subst s2; destruct scrolled; done).
  clearbody s2.
  rewrite (autoScrollEffect_settled s2) by (by rewrite Hst2).
  rewrite He2, Hf2, Hm2, Hshown.
  set (scrollsNow := v_messagesEndRef s1 && v_hasInitialScrolled s1
                     && v_messagesEndRef s1).
  set (s3 := if scrollsNow then scrollIntoView_smooth s2 else s2).
  assert (sched_inv s3 /\ pendingScrolls s3 = pendingScrolls s1
          /\ v_status s3 = v_status s1 /\ v_memoized s3 = v_memoized s1
          /\ v_messagesEndRef s3 = v_messagesEndRef s1
          /\ v_smoothScrolls s3
             = (v_smoothScrolls s1 + if scrollsNow then 1%nat else 0%nat)%nat)
    as (Hsched3 & Hp3 & Hst3 & Hm3 & He3 & Hsm3).
  { subst s3. split; [by destruct scrollsNow|].
    destruct scrollsNow; simpl; repeat split; try done; lia. }
  clearbody s3.
  set (s4 := if reasoning then reasoningScrollEffect s3 else s3).
  assert (pendingScrolls s4 = pendingScrolls s1
          /\ v_status s4 = v_status s1 /\ v_memoized s4 = v_memoized s1
          /\ v_messagesEndRef s4 = v_messagesEndRef s1
          /\ v_smoothScrolls s4
             = (v_smoothScrolls s1 + if scrollsNow then 1%nat else 0%nat)%nat)
    as (Hp4 & Hst4 & Hm4 & He4 & Hsm4).
  { subst s4. destruct reasoning; [|done].
    destruct (pending_independent Streaming s3 Hsched3) as [_ ->].
    destruct (reasoningScrollEffect_frame s3)
      as (_ & _ & -> & -> & _ & -> & _ & _ & _ & -> & _).
    done. }
  clearbody s4.
  destruct scrolled eqn:Hscrolled.
  - subst scrolled.
    apply andb_true_iff in Hscrolled as [[_ Hf%negb_true_iff]%andb_true_iff He].
    rewrite autoScrollEffect_settled by (simpl; by rewrite Hst4).
    simpl. rewrite He4, Hm4, Hshown, He. simpl.
    subst scrollsNow. rewrite Hf, He in Hsm4. simpl in Hsm4.
    rewrite orb_true_r. simpl. split; [done|]. lia.
  - rewrite orb_false_r. subst scrollsNow.
    split; [done|]. rewrite Hsm4.
    by destruct (v_messagesEndRef s1), (v_hasInitialScrolled s1).
Qed.

Lemma setProps_settled p s :
  sched_inv s ->
  isSettledTrigger p s = true ->
  let s' := setPropsTo p s in
  pendingScrolls s' = pendingScrolls s
  /\ v_smoothScrolls s'
     = (v_smoothScrolls s
        + if v_hasInitialScrolled s' && (0 <? js_length (v_memoized s'))%Z
          then 1%nat else 0%nat)%nat.
Proof.
  intros Hsched [Hauto Hst]%andb_true_iff. cbv zeta.
  unfold triggersScroll in Hauto.
  unfold setPropsTo, setProps. rewrite Hauto.
  set (s1 := withProps (p_messages p) (p_status p) (p_initialMessages p) s).
  set (initial := negb (sameReference _ _)).
  set (reasoning := _ || _).
  destruct (runEffects_fields initial true reasoning s1)
    as (_ & _ & _ & _ & -> & _).
  by apply (commit_settled initial reasoning s1).
Qed.



(** * Further properties of the component *)

(** ** The visible turns *)

Lemma keepMessage_true m :
  keepMessage m = true <-> msg_role m = User \/ msg_role m = Assistant.
Proof.
  unfold keepMessage. destruct (msg_role m); simpl; split; auto;
    try discriminate; intros [?|?]; congruence.
Qed.

Lemma elem_of_memoizedMessages messages m :
  m ∈ memoizedMessages messages <->
  m ∈ messages /\ (msg_role m = User \/ msg_role m = Assistant).
Proof. unfold memoizedMessages. by rewrite elem_of_List_filter, keepMessage_true. Qed.

Lemma List_filter_sublist {A} (p : A -> bool) (l : list A) :
  sublist (List.filter p l) l.
Proof.
  induction l as [|a l IH]; simpl; [constructor|].
  destruct (p a); by constructor.
Qed.

(** X1. The filter of the visible turns keeps the order of the sequence,
    keeps exactly the user and assistant turns, and changes nothing when
    applied again. *)
Theorem memoizedMessages_filter messages :
  sublist (memoizedMessages messages) messages
  /\ (forall m, m ∈ memoizedMessages messages <->
                m ∈ messages /\ (msg_role m = User \/ msg_role m = Assistant))
  /\ memoizedMessages (memoizedMessages messages) = memoizedMessages messages.
Proof.
  split; [apply List_filter_sublist|]. split.
  - apply elem_of_memoizedMessages.
  - apply List_filter_id. intros m [_ ?]%elem_of_memoizedMessages.
    by apply keepMessage_true.
Qed.

Lemma last_memoized_role messages m :
  last (memoizedMessages messages) = Some m ->
  msg_role m = User \/ msg_role m = Assistant.
Proof.
  intros Hlast.
  assert (m ∈ memoizedMessages messages) as Hin.
  { rewrite last_lookup in Hlast. by eapply list_elem_of_lookup_2. }
  by apply elem_of_memoizedMessages in Hin as [_ ?].
Qed.

(** X2. Tool invocations count as active exactly while the status is
    streaming and the last visible turn is an assistant turn with a part
    tagged [tool-...]. *)
Theorem hasActiveToolInvocations_rule messages status :
  hasActiveToolInvocations messages status = true <->
  status = Streaming
  /\ exists m, last (memoizedMessages messages) = Some m
       /\ msg_role m = Assistant
       /\ exists p, p ∈ msg_parts m /\ toolInvocation p.
Proof.
  unfold hasActiveToolInvocations. rewrite lastMessageOf_last.
  destruct (last (memoizedMessages messages)) as [m|]; cbn [roleIs].
  - destruct status; simpl;
      try (split; [discriminate | by intros ([=] & _)]).
    destruct (msg_role m) eqn:Hr; simpl;
      try (split; [discriminate | intros (_ & m' & [= <-] & ? & _); congruence]).
    rewrite some_true. split.
    + intros (p & Hin & Hp%isToolPart_true). split; [done|]. exists m. eauto.
    + intros (_ & m' & [= <-] & _ & p & Hin & Hp). exists p. split; [done|].
      by apply isToolPart_true.
  - rewrite andb_false_r. split; [discriminate|]. by intros (_ & m & [=] & _).
Qed.

(** ** The last and the active assistant turn *)

Lemma lastAssistantIndex_from_spec memoized n :
  (lastAssistantIndex_from memoized n = -1
   /\ forall j m, (j < n)%nat -> memoized !! j = Some m -> msg_role m <> Assistant)
  \/ exists i m,
       lastAssistantIndex_from memoized n = Z.of_nat i
       /\ (i < n)%nat
       /\ memoized !! i = Some m /\ msg_role m = Assistant
       /\ forall j m', (i < j < n)%nat -> memoized !! j = Some m' ->
                       msg_role m' <> Assistant.
Proof.
  induction n as [|n IH]; simpl.
  - left. split; [done|]. intros; lia.
  - rewrite js_index_of_nat.
    destruct (roleIs (memoized !! n) Assistant) eqn:Hrole.
    + apply roleIs_true in Hrole as (m & Hm & Hr).
      right. exists n, m. repeat split; try done; [lia|]. intros; lia.
    + assert (forall m, memoized !! n = Some m -> msg_role m <> Assistant) as Hn.
      { intros m Hm Hr. rewrite Hm in Hrole. simpl in Hrole.
        by rewrite Hr in Hrole. }
      destruct IH as [[-> Hnone] | (i & m & -> & Hlt & Hi & Hr & Hlater)].
      * left. split; [done|]. intros j m Hj Hm.
        destruct (decide (j = n)) as [->|]; [by apply Hn|].
        apply (Hnone j); [lia|done].
      * right. exists i, m. repeat split; try done; [lia|].
        intros j m' Hj Hm'.
        destruct (decide (j = n)) as [->|]; [by apply Hn|].
        apply (Hlater j); [lia|done].
Qed.

(** X3. [lastAssistantIndex] is -1 exactly when no visible turn is an
    assistant turn; otherwise it is the index of an assistant turn of the
    visible sequence after which no assistant turn comes. *)
Theorem lastAssistantIndex_rule messages :
  let memoized := memoizedMessages messages in
  (lastAssistantIndex messages = -1
   /\ forall m, m ∈ memoized -> msg_role m <> Assistant)
  \/ exists i m,
       lastAssistantIndex messages = Z.of_nat i
       /\ memoized !! i = Some m /\ msg_role m = Assistant
       /\ forall j m', (i < j)%nat -> memoized !! j = Some m' ->
                       msg_role m' <> Assistant.
Proof.
  intros memoized. unfold lastAssistantIndex. fold memoized.
  destruct (lastAssistantIndex_from_spec memoized (length memoized))
    as [[Hr Hnone] | (i & m & Hr & Hlt & Hi & Hrole & Hlater)].
  - left. split; [done|]. intros m (j & Hj)%list_elem_of_lookup.
    apply (Hnone j); [|done]. by eapply lookup_lt_Some.
  - right. exists i, m. repeat split; try done.
    intros j m' Hj Hm'. apply (Hlater j); [|done].
    split; [done|]. by eapply lookup_lt_Some.
Qed.

(** X4. When there is an active assistant turn, the status is streaming
    and that turn is both the last visible turn and the last assistant
    turn. *)
Theorem activeAssistantIndex_is_last messages status :
  activeAssistantIndex messages status <> -1 ->
  status = Streaming
  /\ activeAssistantIndex messages status = js_length (memoizedMessages messages) - 1
  /\ activeAssistantIndex messages status = lastAssistantIndex messages.
Proof.
  intros Hactive.
  destruct (activeAssistantIndex_cases messages status)
    as [[Ha _] | (Hst & Ha & m & Hlast & Hrole & _)]; [done|].
  split; [done|]. split; [done|].
  rewrite Ha. unfold lastAssistantIndex, js_length.
  rewrite last_lookup in Hlast.
  destruct (memoizedMessages messages) as [|x l] eqn:Hmemo; [done|].
  simpl length in *. simpl Init.Nat.pred in Hlast. simpl lastAssistantIndex_from.
  rewrite js_index_of_nat, Hlast. simpl. rewrite Hrole. simpl. lia.
Qed.

Lemma activeAssistantIndex_is_last_witness :
  activeAssistantIndex
    [mkMessage "u1" User []; mkMessage "a1" Assistant []] Streaming
  = lastAssistantIndex [mkMessage "u1" User []; mkMessage "a1" Assistant []].
Proof.
  apply activeAssistantIndex_is_last. vm_compute. discriminate.
Defined.

(** ** The loader and the height of the turns *)

(** X5. The loading indicator and the reservation of its minimum height
    are the same condition: the indicator is never shown without the
    reserved height. *)
Theorem shouldShowLoading_eq_shouldReserveLoaderMinHeight messages status :
  shouldShowLoading messages status = shouldReserveLoaderMinHeight messages status.
Proof.
  unfold shouldReserveLoaderMinHeight, isActiveAssistantSkeleton, shouldShowLoading.
  destruct status; simpl; try done.
  destruct (lastMessageOf (memoizedMessages messages)) as [m|]; simpl; [|done].
  destruct (msg_role m); simpl; [done| |done].
  by destruct (js_length (msg_parts m) <=? 1).
Qed.

(** X6. The loading indicator and the missing-response condition never
    hold together, and neither holds while the status is error. *)
Theorem loading_excludes_missing :
  forall (Err : Type) messages status (error : option Err),
    (shouldShowLoading messages status = true ->
     isMissingAssistantResponse messages status error = false)
    /\ shouldShowLoading messages Errored = false
    /\ isMissingAssistantResponse messages Errored error = false.
Proof.
  intros Err messages status error.
  unfold shouldShowLoading, isMissingAssistantResponse.
  repeat split; try (destruct status); simpl; rewrite ?andb_false_r; done.
Qed.

Lemma loading_excludes_missing_witness :
  isMissingAssistantResponse
    [mkMessage "u1" User []] Streaming (@None unit) = false.
Proof.
  destruct (loading_excludes_missing unit [mkMessage "u1" User []] Streaming None)
    as [Hexcl _].
  apply Hexcl. reflexivity.
Defined.

Lemma shouldReduceHeight_false messages status i m :
  shouldReduceHeight messages status i m = false ->
  msg_role m = Assistant ->
  (status = Streaming /\ Z.of_nat i = activeAssistantIndex messages status
   /\ isActiveAssistantSkeleton messages status = false)
  \/ (status <> Streaming /\ status <> Submitted
      /\ Z.of_nat i = lastAssistantIndex messages).
Proof.
  unfold shouldReduceHeight. intros H Hr. rewrite Hr in H. simpl in H.
  destruct status; simpl in H; try discriminate.
  - left.
    destruct (activeAssistantIndex messages Streaming =? -1); simpl in H;
      [discriminate|].
    destruct (Z.eqb_spec (Z.of_nat i) (activeAssistantIndex messages Streaming));
      [done|discriminate].
  - right. apply negb_false_iff, Z.eqb_eq in H. done.
  - right. apply negb_false_iff, Z.eqb_eq in H. done.
Qed.

(** X7. While the loader reserves its minimum height, every assistant
    turn has its own height reduced: the height is never reserved twice. *)
Theorem reserved_loader_reduces_every_turn messages status i m :
  shouldReserveLoaderMinHeight messages status = true ->
  msg_role m = Assistant ->
  shouldReduceHeight messages status i m = true.
Proof.
  intros Hreserve Hrole. apply not_false_iff_true. intros Hfalse.
  destruct (shouldReduceHeight_false _ _ _ _ Hfalse Hrole)
    as [(-> & Hi & Hsk) | (Hs1 & Hs2 & _)].
  - unfold shouldReserveLoaderMinHeight in Hreserve. simpl in Hreserve.
    rewrite Hsk, orb_false_r in Hreserve.
    destruct (activeAssistantIndex_cases messages Streaming)
      as [[Ha _] | (_ & _ & last_m & Hlast & Hr & _)]; [lia|].
    rewrite lastMessageOf_last, Hlast in Hreserve. simpl in Hreserve.
    by rewrite Hr in Hreserve.
  - unfold shouldReserveLoaderMinHeight in Hreserve. by destruct status.
Qed.

Lemma reserved_loader_reduces_every_turn_witness :
  shouldReduceHeight
    [mkMessage "u1" User []; mkMessage "a1" Assistant [mkPart "reasoning" None]]
    Streaming 1 (mkMessage "a1" Assistant [mkPart "reasoning" None]) = true.
Proof.
  apply reserved_loader_reduces_every_turn; reflexivity.
Defined.

(** X8. Whatever the status, at most one assistant turn of the visible
    sequence keeps its full height. *)
Theorem at_most_one_turn_keeps_height messages status i j mi mj :
  msg_role mi = Assistant -> msg_role mj = Assistant ->
  shouldReduceHeight messages status i mi = false ->
  shouldReduceHeight messages status j mj = false ->
  i = j.
Proof.
  intros Hi Hj Hfi Hfj.
  destruct (shouldReduceHeight_false _ _ _ _ Hfi Hi) as [(-> & Ei & _) | (Hs & _ & Ei)];
    destruct (shouldReduceHeight_false _ _ _ _ Hfj Hj) as [(? & Ej & _) | (Hs' & _ & Ej)];
    try congruence; lia.
Qed.

Lemma at_most_one_turn_keeps_height_witness :
  let a := mkMessage "a1" Assistant [mkPart "text" None] in
  shouldReduceHeight [mkMessage "u1" User []; a] Ready 1 a = false
  /\ (1 = 1)%nat.
Proof.
  intros a. split; [reflexivity|].
  apply (at_most_one_turn_keeps_height
           [mkMessage "u1" User []; a] Ready 1 1 a a); reflexivity.
Defined.

(** X9. Once the status is ready or error, the last assistant turn of the
    visible sequence, when there is one, keeps its full height. *)
Theorem last_assistant_keeps_height messages status m :
  status = Ready \/ status = Errored ->
  m ∈ memoizedMessages messages -> msg_role m = Assistant ->
  exists i last_m,
    memoizedMessages messages !! i = Some last_m
    /\ msg_role last_m = Assistant
    /\ shouldReduceHeight messages status i last_m = false
    /\ forall j m', (i < j)%nat -> memoizedMessages messages !! j = Some m' ->
                    msg_role m' = User.
Proof.
  intros Hst Hin Hrole.
  unfold lastAssistantIndex.
  destruct (lastAssistantIndex_from_spec (memoizedMessages messages)
              (length (memoizedMessages messages)))
    as [[_ Hnone] | (i & last_m & Hr & Hlt & Hi & Hlr & Hlater)].
  - exfalso. apply list_elem_of_lookup in Hin as (j & Hj).
    apply (Hnone j m); [by eapply lookup_lt_Some|done|done].
  - exists i, last_m. repeat split; try done.
    + unfold shouldReduceHeight, lastAssistantIndex. rewrite Hlr, Hr. simpl.
      destruct Hst as [-> | ->]; simpl; by rewrite Z.eqb_refl.
    + intros j m' Hj Hm'.
      assert (msg_role m' <> Assistant) as Hna.
      { apply (Hlater j); [|done]. split; [done|]. by eapply lookup_lt_Some. }
      assert (m' ∈ memoizedMessages messages) as Hin' by (by eapply list_elem_of_lookup_2).
      apply elem_of_memoizedMessages in Hin' as [_ [?|?]]; done.
Qed.

Lemma last_assistant_keeps_height_witness :
  let a := mkMessage "a1" Assistant [mkPart "text" None] in
  let messages := [mkMessage "u1" User []; a; mkMessage "u2" User []] in
  exists i last_m,
    memoizedMessages messages !! i = Some last_m
    /\ msg_role last_m = Assistant
    /\ shouldReduceHeight messages Ready i last_m = false
    /\ forall j m', (i < j)%nat -> memoizedMessages messages !! j = Some m' ->
                    msg_role m' = User.
Proof.
  intros a messages.
  apply (last_assistant_keeps_height messages Ready a).
  - left. reflexivity.
  - apply elem_of_memoizedMessages. split; [|by right].
    right. left.
  - reflexivity.
Defined.

(** ** What is rendered *)

Lemma js_length_0 {A} (l : list A) : (js_length l =? 0) = true <-> l = [].
Proof.
  unfold js_length. rewrite Z.eqb_eq. destruct l; simpl; split; try done; lia.
Qed.

(** X10. The component renders nothing exactly when the sequence has no
    user or assistant turn; otherwise it hands one [shouldReduceHeight]
    flag to every visible turn. *)
Theorem render_nothing_iff :
  forall (Err : Type) messages status (error : option Err),
    (render messages status error = None <->
     forall m, m ∈ messages -> msg_role m = System)
    /\ (forall r, render messages status error = Some r ->
                  length (r_reduceHeight r) = length (memoizedMessages messages)).
Proof.
  intros Err messages status error. unfold render.
  destruct (js_length (memoizedMessages messages) =? 0) eqn:Hlen; split.
  - split; [|done]. intros _ m Hm.
    apply js_length_0 in Hlen.
    destruct (msg_role m) eqn:Hr; [| |done]; exfalso;
      (assert (m ∈ memoizedMessages messages) as Hin
         by (apply elem_of_memoizedMessages; auto));
      rewrite Hlen in Hin; by apply elem_of_nil in Hin.
  - discriminate.
  - split; [discriminate|]. intros Hall. exfalso.
    apply not_true_iff_false in Hlen. apply Hlen, js_length_0.
    destruct (memoizedMessages messages) as [|m l] eqn:Hmemo; [done|].
    assert (m ∈ memoizedMessages messages) as Hin by (rewrite Hmemo; by left).
    apply elem_of_memoizedMessages in Hin as [Hin [Hr|Hr]];
      rewrite (Hall m Hin) in Hr; discriminate.
  - intros r [= <-]. simpl. by rewrite length_imap.
Qed.

(** X11. When something is rendered, the global error display is shown
    exactly when an error is set and the last visible turn is a user
    turn. *)
Theorem render_globalError_iff :
  forall (Err : Type) messages status (error : option Err) r,
    render messages status error = Some r ->
    (r_globalError r = true <->
     error <> None
     /\ exists m, last (memoizedMessages messages) = Some m /\ msg_role m = User).
Proof.
  intros Err messages status error r. unfold render.
  destruct (js_length (memoizedMessages messages) =? 0) eqn:Hlen; [discriminate|].
  intros [= <-]. simpl. rewrite lastMessageOf_last.
  destruct (last (memoizedMessages messages)) as [m|] eqn:Hlast.
  - pose proof (last_memoized_role _ _ Hlast) as Hrole.
    destruct error as [e|]; simpl.
    + destruct Hrole as [Hr|Hr]; rewrite Hr; simpl; split; try done.
      * intros _. split; [done|]. eauto.
      * intros [_ (m' & [= <-] & ?)]. congruence.
    + split; [discriminate|]. by intros [? _].
  - exfalso. apply last_None in Hlast. rewrite Hlast in Hlen. discriminate.
Qed.

Lemma render_globalError_iff_witness :
  exists r,
    render [mkMessage "u1" User []] Errored (Some tt) = Some r
    /\ r_globalError r = true.
Proof.
  eexists. split; [reflexivity|].
  apply (render_globalError_iff unit [mkMessage "u1" User []] Errored (Some tt));
    [reflexivity|].
  split; [discriminate|]. eexists. split; reflexivity.
Defined.

(** X12. A visible turn is separated from the next one by a border
    exactly when it is an assistant turn that is not the last visible
    turn; every other turn gets the plain class. *)
Theorem messageClasses_rule memoized index message :
  (messageClasses memoized index message = class_separated <->
   msg_role message = Assistant /\ (index + 1 < length memoized)%nat)
  /\ (messageClasses memoized index message <> class_separated ->
      messageClasses memoized index message = class_plain).
Proof.
  unfold messageClasses, js_length.
  destruct (Z.ltb_spec (Z.of_nat index) (Z.of_nat (length memoized) - 1)) as [Hlt|Hge].
  - destruct (msg_role message); simpl;
      repeat match goal with
             | |- context [if ?b then _ else _] => destruct b
             end;
      split; try done; split; try done; try (intros [? _]; done); intros; split; [done|lia].
  - destruct (msg_role message); simpl;
      repeat match goal with
             | |- context [if ?b then _ else _] => destruct b
             end;
      split; try done; split; try done; intros [_ ?]; lia.
Qed.

Lemma messageClasses_rule_witness :
  messageClasses
    [mkMessage "a1" Assistant []; mkMessage "u2" User []] 1 (mkMessage "u2" User [])
  = class_plain.
Proof.
  apply messageClasses_rule. discriminate.
Defined.

(** ** Annotations *)

Lemma startsWith_data (s : string) :
  startsWith s "data-" = true ->
  startsWith s "tool-" = false /\ s <> "text" /\ s <> "reasoning"
  /\ s <> "tool-invocation".
Proof.
  unfold startsWith. intros H.
  destruct s as [|c s]; simpl in H; [discriminate|].
  match type of H with
  | (if ?d then _ else _) = true => destruct d as [<-|]; [|discriminate]
  end.
  repeat split; done.
Qed.

Lemma List_filter_eq_all {A} (p : A -> bool) (l : list A) :
  List.filter p l = l -> forall x, x ∈ l -> p x = true.
Proof.
  intros Heq x Hx. rewrite <- Heq in Hx.
  by apply elem_of_List_filter in Hx as [_ ?].
Qed.

(** Annotations are the [data-] parts of a turn in their order; none of
    them is a tool invocation, a text part or a reasoning part, and none
    closes a reasoning segment. *)
Lemma annotationsOf_rule message :
  sublist (annotationsOf message) (msg_parts message)
  /\ forall p, p ∈ annotationsOf message ->
       isToolPart p = false /\ isVisibleTextPart p = false
       /\ closesReasoning p = false /\ part_type p <> "reasoning".
Proof.
  split; [apply List_filter_sublist|].
  intros p [_ Hdata]%elem_of_List_filter.
  apply startsWith_data in Hdata as (Htool & Htext & Hreas & Hinv).
  repeat split; try done.
  - unfold isVisibleTextPart. by apply String.eqb_neq in Htext as ->.
  - by apply closesReasoning_false.
Qed.

(** X13. An assistant turn that carries annotations only counts as a
    missing response once the status is ready and no error is set. *)
Theorem annotations_only_is_missing :
  forall (Err : Type) messages m,
    last (memoizedMessages messages) = Some m ->
    msg_role m = Assistant ->
    annotationsOf m = msg_parts m ->
    isMissingAssistantResponse messages Ready (@None Err) = true.
Proof.
  intros Err messages m Hlast Hrole Hall.
  unfold isMissingAssistantResponse.
  rewrite lastMessageOf_last, Hlast. simpl. rewrite Hrole. simpl.
  assert (some isVisibleTextPart (msg_parts m) = false
          /\ some isToolPart (msg_parts m) = false) as [-> ->]; [|done].
  split; apply not_true_iff_false; intros (p & Hin & Hp)%some_true;
    rewrite <- Hall in Hin; apply annotationsOf_rule in Hin as (? & ? & _);
    congruence.
Qed.

Lemma annotations_only_is_missing_witness :
  isMissingAssistantResponse
    [mkMessage "u1" User [];
     mkMessage "a1" Assistant [mkPart "data-query_completion" None]]
    Ready (@None unit) = true.
Proof.
  apply (annotations_only_is_missing unit _
           (mkMessage "a1" Assistant [mkPart "data-query_completion" None]));
    reflexivity.
Defined.

(** ** Reasoning segments while a turn grows *)

Lemma reasoningOpenAt_app_inv idA role parts more (i : nat) :
  (i < length parts)%nat ->
  reasoningOpenAt (mkMessage idA role (parts ++ more)) (Z.of_nat i) ->
  reasoningOpenAt (mkMessage idA role parts) (Z.of_nat i).
Proof.
  intros Hi (p & Hp & Hty & Hlater). simpl in *.
  rewrite js_index_of_nat in Hp. rewrite lookup_app_l in Hp by done.
  exists p. simpl. rewrite js_index_of_nat. split; [done|]. split; [done|].
  intros j q Hj Hq. apply (Hlater j); [done|].
  rewrite lookup_app_l; [done|]. by eapply lookup_lt_Some.
Qed.

(** X14. Parts are only ever appended to a turn, and appending never
    re-opens a reasoning segment: one that is not active stays so
    whatever parts follow. *)
Theorem isReasoningActive_append_closed idA role parts more (i : nat) :
  (i < length parts)%nat ->
  isReasoningActive (mkMessage idA role parts) (Z.of_nat i) = false ->
  isReasoningActive (mkMessage idA role (parts ++ more)) (Z.of_nat i) = false.
Proof.
  intros Hi Hclosed. apply not_true_iff_false.
  intros Hactive%isReasoningActive_spec.
  apply (reasoningOpenAt_app_inv _ _ _ _ _ Hi), isReasoningActive_spec in Hactive.
  congruence.
Qed.

Lemma isReasoningActive_append_closed_witness :
  isReasoningActive
    (mkMessage "a1" Assistant
       ([mkPart "reasoning" None; mkPart "text" None] ++ [mkPart "reasoning" None]))
    (Z.of_nat 0) = false.
Proof.
  apply isReasoningActive_append_closed; [simpl; lia | reflexivity].
Defined.

(** X15. A text part appended to a turn closes every reasoning segment of
    it; a reasoning part appended to a turn is active. *)
Theorem isReasoningActive_append idA role parts t r :
  (forall i, isReasoningActive
               (mkMessage idA role (parts ++ [mkPart "text" t])) i = false)
  /\ isReasoningActive
       (mkMessage idA role (parts ++ [mkPart "reasoning" r]))
       (js_length parts) = true.
Proof.
  split.
  - intros i. apply not_true_iff_false.
    intros (p & Hp & Hty & Hlater)%isReasoningActive_spec. simpl in *.
    unfold js_index in Hp. destruct (Z.ltb_spec i 0) as [|Hnn]; [done|].
    pose proof (lookup_lt_Some _ _ _ Hp) as Hlt.
    rewrite length_app in Hlt. simpl in Hlt.
    destruct (decide (Z.to_nat i = length parts)) as [Heq|Hne].
    + rewrite Heq, lookup_app_r, Nat.sub_diag in Hp by done.
      injection Hp as <-. done.
    + destruct (Hlater (length parts) (mkPart "text" t)) as [Hno _]; [lia| |done].
      by rewrite lookup_app_r, Nat.sub_diag.
  - apply isReasoningActive_spec. exists (mkPart "reasoning" r). simpl.
    unfold js_length. rewrite js_index_of_nat.
    split; [by rewrite lookup_app_r, Nat.sub_diag|]. split; [done|].
    intros j q Hj Hq. apply lookup_lt_Some in Hq.
    rewrite length_app in Hq. simpl in Hq. lia.
Qed.

Lemma lookup_app_Some_cases {A} (l1 l2 : list A) k x :
  (l1 ++ l2) !! k = Some x ->
  l1 !! k = Some x \/ l2 !! (k - length l1)%nat = Some x.
Proof.
  intros H. destruct (decide (k < length l1)%nat).
  - left. by rewrite lookup_app_l in H.
  - right. by rewrite lookup_app_r in H by lia.
Qed.

Lemma noSegmentActive_app before after :
  noSegmentActive (before ++ after) <->
  noSegmentActive before /\ noSegmentActive after.
Proof.
  unfold noSegmentActive. split.
  - intros H. split; intros k turn index Hk.
    + apply (H k). rewrite lookup_app_l; [done|]. by eapply lookup_lt_Some.
    + apply (H (length before + k)%nat).
      rewrite lookup_app_r by lia.
      by replace (length before + k - length before)%nat with k by lia.
  - intros [Hb Ha] k turn index [Hk|Hk]%lookup_app_Some_cases; eauto.
Qed.

(** X16. Activity is judged turn by turn over the whole sequence: some
    segment of a sequence is active exactly when one is in either half of
    it, so an earlier turn that ended on a reasoning part keeps the list
    of active segments non-empty, whatever the turns after it hold. *)
Theorem activeReasoning_app before after :
  (0 <? js_length (activeReasoning (before ++ after)))
  = (0 <? js_length (activeReasoning before))
    || (0 <? js_length (activeReasoning after)).
Proof.
  pose proof (noSegmentActive_app before after) as Happ.
  rewrite !noSegmentActive_activeReasoning in Happ.
  destruct (0 <? js_length (activeReasoning (before ++ after)));
    destruct (0 <? js_length (activeReasoning before));
    destruct (0 <? js_length (activeReasoning after)); simpl; try done.
  - by apply Happ.
  - destruct Happ as [Happ _]. by destruct Happ.
  - destruct Happ as [Happ _]. by destruct Happ.
  - destruct Happ as [Happ _]. by destruct Happ.
Qed.

(** ** More on the retry handler *)

Lemma findLast_Some_elem {A} (p : A -> bool) (arr : list A) x :
  findLast p arr = Some x -> x ∈ arr /\ p x = true.
Proof.
  induction arr as [|a arr IH]; simpl; [discriminate|].
  destruct (findLast p arr) as [y|].
  - intros [= ->]. destruct IH as [Hin Hp]; [done|]. split; [by right|done].
  - destruct (p a) eqn:Hp; [|discriminate]. intros [= ->]. split; [by left|done].
Qed.

Lemma pushUntil_first id messages :
  (exists m, m ∈ messages /\ msg_id m = id) ->
  exists j m,
    messages !! j = Some m /\ msg_id m = id
    /\ (forall i m', (i < j)%nat -> messages !! i = Some m' -> msg_id m' <> id)
    /\ pushUntil id messages = take (S j) messages.
Proof.
  induction messages as [|x rest IH]; intros (m & Hin & Hid).
  - by apply elem_of_nil in Hin.
  - simpl. destruct (String.eqb_spec (msg_id x) id) as [Hx|Hx].
    + exists 0%nat, x. split; [done|]. split; [done|].
      split; [intros; lia|]. by rewrite take_0.
    + apply elem_of_cons in Hin as [->|Hin]; [done|].
      destruct IH as (j & m' & Hj & Hid' & Hfirst & Hpush); [eauto|].
      exists (S j), m'. split; [done|]. split; [done|]. split.
      * intros [|i] m'' Hi Hm''; [by injection Hm'' as <-|].
        apply (Hfirst i); [lia|done].
      * by rewrite Hpush.
Qed.

(** Without an id to stop at, the loop copies the whole sequence. *)
Lemma pushUntil_all id messages :
  (forall m, m ∈ messages -> msg_id m <> id) ->
  pushUntil id messages = messages.
Proof.
  induction messages as [|x rest IH]; intros Hnone; simpl; [done|].
  destruct (String.eqb_spec (msg_id x) id) as [Hx|Hx].
  - exfalso. apply (Hnone x); [by left|done].
  - f_equal. apply IH. intros m Hm. apply Hnone. by right.
Qed.

(** What the handler leaves when it gets past the deletion step. *)
Lemma handleRetry_proceeds
    {UserData : Type} messages A (user : option UserData)
    (del : string -> Outcome) (regen : Outcome) (w : World) :
  findLast (fun m => Role_eqb (msg_role m) User) messages = Some A ->
  deletionAttempted user A = false \/ del (msg_id A) = Resolves ->
  let w' := fst (handleRetry messages user del regen w) in
  w_messages w' = pushUntil (msg_id A) messages
  /\ w_suggestedQuestions w' = []
  /\ w_regenerateCalls w' = S (w_regenerateCalls w).
Proof.
  intros Hfind Hok.
  unfold handleRetry, tryCatch, deletionAttempted in *. rewrite Hfind.
  cbv [mbind mret Async_bind Async_ret deleteTrailingMessages setMessages
       setSuggestedQuestions regenerate console_error].
  destruct (isSet user && js_truthy_string (msg_id A));
    destruct (del (msg_id A)); destruct regen; simpl;
    intuition congruence.
Qed.

(** X17. The handler contains every failure: whatever the sequence, the
    caller and the outcome of the two calls, it returns normally, asks
    for at most one deletion and at most one regeneration, logs at most
    one error, and asks for no deletion when the caller is signed out. *)
Theorem handleRetry_contained
    {UserData : Type} messages (user : option UserData)
    (del : string -> Outcome) (regen : Outcome) (w : World) :
  let result := handleRetry messages user del regen w in
  snd result = inr ()
  /\ (exists calls, w_deleteCalls (fst result) = w_deleteCalls w ++ calls
                    /\ (length calls <= 1)%nat
                    /\ (user = None -> calls = []))
  /\ (w_regenerateCalls w <= w_regenerateCalls (fst result) <= S (w_regenerateCalls w))%nat
  /\ (exists errors, w_consoleErrors (fst result) = w_consoleErrors w ++ errors
                     /\ (length errors <= 1)%nat
                     /\ ((forall id, del id = Resolves) -> regen = Resolves ->
                         errors = [])).
Proof.
  unfold handleRetry, tryCatch.
  destruct (findLast _ messages) as [A|].
  - cbv [mbind mret Async_bind Async_ret deleteTrailingMessages setMessages
         setSuggestedQuestions regenerate console_error].
    destruct user as [u|]; simpl;
      destruct (js_truthy_string (msg_id A)); simpl;
      destruct (del (msg_id A)) eqn:Hdel; destruct regen; simpl.
    all: split; [done|].
    all: split;
      [first [ exists []; split; [by rewrite app_nil_r|]
             | eexists; split; [reflexivity|] ];
       split; [simpl; lia | by intros]|].
    all: split; [lia|].
    all: first [ exists []; split; [by rewrite app_nil_r|]
               | eexists; split; [reflexivity|] ].
    all: split; [simpl; lia|].
    all: intros Hall Hregen; try done.
    all: rewrite Hall in Hdel; discriminate.
  - cbv [mret Async_ret]. simpl. split; [done|].
    split; [exists []; rewrite app_nil_r; repeat split; simpl; lia|].
    split; [lia|].
    exists []. rewrite app_nil_r. repeat split; simpl; lia.
Qed.

(** X18. When ids repeat, the local sequence is cut at the first turn
    that carries the id of the last user turn, which may come before that
    turn. *)
Theorem handleRetry_truncates_at_first_id
    {UserData : Type} messages k A (user : option UserData)
    (del : string -> Outcome) (regen : Outcome) (w : World) :
  lastUserAt messages k A ->
  deletionAttempted user A = false \/ del (msg_id A) = Resolves ->
  exists j m,
    (j <= k)%nat
    /\ messages !! j = Some m /\ msg_id m = msg_id A
    /\ (forall i m', (i < j)%nat -> messages !! i = Some m' -> msg_id m' <> msg_id A)
    /\ w_messages (fst (handleRetry messages user del regen w)) = take (S j) messages.
Proof.
  intros Hlast Hok.
  pose proof (findLast_lastUserAt _ _ _ Hlast) as Hfind.
  destruct (handleRetry_proceeds messages A user del regen w Hfind Hok) as (-> & _).
  destruct Hlast as (Hk & _).
  destruct (pushUntil_first (msg_id A) messages) as (j & m & Hj & Hid & Hfirst & ->).
  { exists A. split; [by eapply list_elem_of_lookup_2|done]. }
  exists j, m. repeat split; try done.
  destruct (decide (j <= k)%nat) as [|Hgt]; [done|].
  exfalso. apply (Hfirst k A); [lia|done|done].
Qed.

Lemma handleRetry_truncates_at_first_id_witness :
  let A1 := mkMessage "" User [mkPart "text" (Some [97]%N)] in
  let B := mkMessage "a1" Assistant [] in
  let A2 := mkMessage "" User [mkPart "text" (Some [98]%N)] in
  let w := mkWorld [A1; B; A2] [] [] 0 [] in
  exists j m,
    (j <= 2)%nat
    /\ [A1; B; A2] !! j = Some m /\ msg_id m = msg_id A2
    /\ (forall i m', (i < j)%nat -> [A1; B; A2] !! i = Some m' -> msg_id m' <> msg_id A2)
    /\ w_messages (fst (handleRetry [A1; B; A2] (Some tt) (fun _ => Resolves) Resolves w))
       = take (S j) [A1; B; A2].
Proof.
  intros A1 B A2 w.
  apply (handleRetry_truncates_at_first_id [A1; B; A2] 2 A2).
  - split; [reflexivity|]. split; [reflexivity|].
    intros [|[|[|j]]] m Hlt Hm; try lia. discriminate Hm.
  - left. reflexivity.
Defined.

Lemma lastUserAt_take messages k A :
  lastUserAt messages k A -> lastUserAt (take (S k) messages) k A.
Proof.
  intros (Hk & Hr & Hlater). split; [|split; [done|]].
  - rewrite lookup_take_lt by lia. done.
  - intros j m Hj Hm. apply lookup_lt_Some in Hm as Hlen.
    rewrite length_take in Hlen. lia.
Qed.

Lemma idFirstAt_take messages k A :
  idFirstAt messages k A -> idFirstAt (take (S k) messages) k A.
Proof.
  intros Hfirst j m Hj Hm. rewrite lookup_take_lt in Hm by lia.
  by apply (Hfirst j).
Qed.

(** X19. Retrying twice in a row gives the same local sequence as
    retrying once: the second retry finds the sequence already cut at the
    last user turn, and regenerates again. *)
Theorem handleRetry_twice
    {UserData : Type} messages k A (user : option UserData)
    (del : string -> Outcome) (regen : Outcome) (w : World) :
  lastUserAt messages k A ->
  idFirstAt messages k A ->
  deletionAttempted user A = false \/ del (msg_id A) = Resolves ->
  let w1 := fst (handleRetry messages user del regen w) in
  let w2 := fst (handleRetry (w_messages w1) user del regen w1) in
  w_messages w2 = w_messages w1
  /\ w_messages w1 = take (S k) messages
  /\ w_regenerateCalls w2 = S (S (w_regenerateCalls w)).
Proof.
  intros Hlast Hfirst Hok. cbv zeta.
  pose proof (findLast_lastUserAt _ _ _ Hlast) as Hfind.
  destruct (handleRetry_proceeds messages A user del regen w Hfind Hok)
    as (Hm1 & _ & Hr1).
  rewrite (pushUntil_take _ _ _ (proj1 Hlast) Hfirst) in Hm1.
  pose proof (lastUserAt_take _ _ _ Hlast) as Hlast'.
  pose proof (idFirstAt_take _ _ _ Hfirst) as Hfirst'.
  pose proof (findLast_lastUserAt _ _ _ Hlast') as Hfind'.
  rewrite Hm1.
  destruct (handleRetry_proceeds (take (S k) messages) A user del regen
              (fst (handleRetry messages user del regen w)) Hfind' Hok)
    as (Hm2 & _ & Hr2).
  rewrite (pushUntil_take _ _ _ (proj1 Hlast') Hfirst') in Hm2.
  rewrite Hm2, Hr2, Hr1. split; [|done].
  rewrite take_take. f_equal. lia.
Qed.

Lemma handleRetry_twice_witness :
  let A := mkMessage "u1" User [mkPart "text" (Some [104; 105]%N)] in
  let B := mkMessage "a1" Assistant [] in
  let w := mkWorld [A; B] ["more?"] [] 0 [] in
  let w1 := fst (handleRetry [A; B] (@None unit) (fun _ => Rejects) Resolves w) in
  let w2 := fst (handleRetry (w_messages w1) (@None unit) (fun _ => Rejects) Resolves w1) in
  w_messages w2 = w_messages w1
  /\ w_messages w1 = take 1 [A; B]
  /\ w_regenerateCalls w2 = 2%nat.
Proof.
  intros A B w.
  apply (handleRetry_twice [A; B] 0 A).
  - split; [reflexivity|]. split; [reflexivity|].
    intros [|[|j]] m Hlt Hm; [lia| |discriminate Hm].
    injection Hm as <-. discriminate.
  - intros j m Hlt. lia.
  - left. reflexivity.
Defined.

Lemma last_memoized_snoc pre A :
  msg_role A = User -> last (memoizedMessages (pre ++ [A])) = Some A.
Proof.
  intros Hr. unfold memoizedMessages. rewrite List.filter_app. simpl.
  unfold keepMessage at 2. rewrite Hr. simpl. apply last_snoc.
Qed.

(** X20. After a retry that got past the deletion step, the last visible
    turn is the last user turn: the transcript then shows the loading
    indicator while the status is submitted or streaming, counts as a
    missing response once it is ready with no error, and has no active
    assistant turn and no active tool invocation. *)
Theorem handleRetry_awaits_response
    {UserData : Type} messages k A (user : option UserData)
    (del : string -> Outcome) (regen : Outcome) (w : World) :
  lastUserAt messages k A ->
  idFirstAt messages k A ->
  deletionAttempted user A = false \/ del (msg_id A) = Resolves ->
  let after := w_messages (fst (handleRetry messages user del regen w)) in
  last (memoizedMessages after) = Some A
  /\ shouldShowLoading after Submitted = true
  /\ shouldShowLoading after Streaming = true
  /\ isMissingAssistantResponse after Ready (@None unit) = true
  /\ (forall status, activeAssistantIndex after status = -1)
  /\ (forall status, hasActiveToolInvocations after status = false).
Proof.
  intros Hlast Hfirst Hok. cbv zeta.
  pose proof (findLast_lastUserAt _ _ _ Hlast) as Hfind.
  destruct (handleRetry_proceeds messages A user del regen w Hfind Hok) as (-> & _).
  destruct Hlast as (Hk & Hr & _).
  rewrite (pushUntil_take _ _ _ Hk Hfirst).
  rewrite (take_S_r _ _ _ Hk).
  pose proof (last_memoized_snoc (take k messages) A Hr) as Hl.
  split; [done|].
  unfold shouldShowLoading, isMissingAssistantResponse, activeAssistantIndex,
    hasActiveToolInvocations.
  rewrite !lastMessageOf_last, Hl. simpl. rewrite Hr. simpl.
  repeat split; intros status; by destruct status.
Qed.

Lemma handleRetry_awaits_response_witness :
  let A := mkMessage "u1" User [mkPart "text" (Some [104; 105]%N)] in
  let B := mkMessage "a1" Assistant [mkPart "reasoning" None] in
  let w := mkWorld [A; B] [] [] 0 [] in
  shouldShowLoading
    (w_messages (fst (handleRetry [A; B] (Some tt) (fun _ => Resolves) Resolves w)))
    Streaming = true.
Proof.
  intros A B w.
  apply (handleRetry_awaits_response [A; B] 0 A (Some tt) (fun _ => Resolves) Resolves w).
  - split; [reflexivity|]. split; [reflexivity|].
    intros [|[|j]] m Hlt Hm; [lia| |discriminate Hm].
    injection Hm as <-. discriminate.
  - intros j m Hlt. lia.
  - right. reflexivity.
Defined.

(** ** More on the timer queue *)

Lemma nil_of_no_elem {A} (l : list A) : (forall x, x ∈ l -> False) -> l = [].
Proof. destruct l as [|a l]; [done|]. intros H. destruct (H a). by left. Qed.

Lemma cleanup_frame s :
  cleanup s = afterClearReasoning (afterClearScroll s)
  /\ v_reasoningScrollTimeoutRef (afterClearScroll s) = v_reasoningScrollTimeoutRef s
  /\ v_smoothScrolls (cleanup s) = v_smoothScrolls s
  /\ v_reasoningScrolls (cleanup s) = v_reasoningScrolls s
  /\ v_instantScrolls (cleanup s) = v_instantScrolls s.
Proof.
  unfold cleanup, afterClearReasoning, afterClearScroll.
  destruct (v_scrollTimeoutRef s); simpl;
    destruct (v_reasoningScrollTimeoutRef s); done.
Qed.

(** X21. Unmounting cancels every pending run: in any state the component
    can reach, the cleanup leaves the timer queue empty, so nothing
    scrolls afterwards however much time passes. *)
Theorem cleanup_cancels_everything s dt :
  reachable s ->
  v_timers (cleanup s) = []
  /\ v_smoothScrolls (fireDue (elapse dt (cleanup s))) = v_smoothScrolls s
  /\ v_reasoningScrolls (fireDue (elapse dt (cleanup s))) = v_reasoningScrolls s.
Proof.
  intros (Hs & Hh & _)%reachable_inv.
  destruct (cleanup_frame s) as (Hc & Href & Hsm & Hrs & _).
  assert (v_timers (cleanup s) = []) as Hnil.
  { apply nil_of_no_elem. intros t. rewrite Hc.
    intros [[Hin Hns]%afterClearScroll_timers Hnr]%afterClearReasoning_timers.
    rewrite Href in Hnr.
    destruct (t_callback t) as [|l] eqn:Hcb.
    - apply Hns. by apply Hs.
    - apply Hnr. by apply (Hh t l). }
  split; [done|].
  destruct (fireDue_spec (elapse dt (cleanup s))) as (_ & _ & -> & ->).
  simpl. rewrite Hnil. simpl.
  destruct (v_messagesEndRef (cleanup s)); lia.
Qed.

Lemma cleanup_cancels_everything_witness :
  let s := mount {[ 0%nat := [mkMessage "a1" Assistant [mkPart "reasoning" None]] ]}
                 0 Streaming None in
  v_timers s <> [] /\ v_timers (cleanup s) = [].
Proof.
  intros s. split; [vm_compute; discriminate|].
  apply (cleanup_cancels_everything s 0). apply reachable_mount.
Defined.

Lemma same_handle_at_most_one (l : list Timer) (h : nat) :
  NoDup (map t_handle l) -> (forall t, t ∈ l -> t_handle t = h) ->
  (length l <= 1)%nat.
Proof.
  destruct l as [|a [|b l]]; simpl; try lia.
  intros [Hnotin _]%NoDup_cons Hall. exfalso. apply Hnotin.
  rewrite (Hall a) by (by left). rewrite <- (Hall b) by (right; by left).
  by left.
Qed.

Lemma pendingScrolls_at_most_one s :
  scroll_inv s -> sched_inv s -> (length (pendingScrolls s) <= 1)%nat.
Proof.
  intros Hs (Hnd & _).
  destruct (v_scrollTimeoutRef s) as [h|] eqn:Href.
  - apply (same_handle_at_most_one _ h); [by apply NoDup_map_List_filter|].
    intros t [Hin Hk]%elem_of_List_filter.
    unfold isScrollToEnd in Hk. destruct (t_callback t) eqn:Hcb; [|done].
    specialize (Hs t Hin Hcb). congruence.
  - unfold pendingScrolls. rewrite List_filter_nil; [simpl; lia|].
    intros t Hin. unfold isScrollToEnd.
    destruct (t_callback t) eqn:Hcb; [|done].
    specialize (Hs t Hin Hcb). congruence.
Qed.

Lemma pendingReasoning_at_most_one s :
  reasoning_handles s -> sched_inv s -> (length (pendingReasoning s) <= 1)%nat.
Proof.
  intros Hh (Hnd & _).
  destruct (v_reasoningScrollTimeoutRef s) as [h|] eqn:Href.
  - apply (same_handle_at_most_one _ h); [by apply NoDup_map_List_filter|].
    intros t [Hin Hk]%elem_of_List_filter.
    unfold isScrollToEnd in Hk. destruct (t_callback t) as [|l] eqn:Hcb; [done|].
    specialize (Hh t l Hin Hcb). congruence.
  - unfold pendingReasoning. rewrite List_filter_nil; [simpl; lia|].
    intros t Hin. unfold isScrollToEnd.
    destruct (t_callback t) as [|l] eqn:Hcb; [done|].
    specialize (Hh t l Hin Hcb). congruence.
Qed.

(** X22. The timer queue never grows: in any state the component can
    reach at most one run of the main scroller and at most one run of the
    reasoning scroller are pending, whatever the number of renders. *)
Theorem at_most_one_pending_run s :
  reachable s ->
  (length (pendingScrolls s) <= 1)%nat
  /\ (length (pendingReasoning s) <= 1)%nat
  /\ (length (v_timers s) <= 2)%nat.
Proof.
  intros Hreach.
  pose proof (reachable_sched_inv s Hreach) as Hsched.
  destruct (reachable_inv s Hreach) as (Hs & Hh & _).
  pose proof (pendingScrolls_at_most_one s Hs Hsched) as H1.
  pose proof (pendingReasoning_at_most_one s Hh Hsched) as H2.
  split; [done|]. split; [done|].
  rewrite (List_filter_length_split isScrollToEnd).
  unfold pendingScrolls, pendingReasoning in *. lia.
Qed.

Lemma at_most_one_pending_run_witness :
  let s := run [SetProps 1 Streaming None; SetProps 2 Streaming None; SetProps 3 Streaming None]
               (mount {[ 0%nat := [mkMessage "u1" User []];
                         1%nat := [mkMessage "u1" User []; mkMessage "a1" Assistant []];
                         2%nat := [mkMessage "u1" User []; mkMessage "a1" Assistant []];
                         3%nat := [mkMessage "u1" User []; mkMessage "a1" Assistant []] ]}
                      0 Submitted None) in
  (length (v_timers s) <= 2)%nat.
Proof.
  intros s.
  apply (at_most_one_pending_run s).
  exact (reachable_step (SetProps 3 Streaming None) _
           (reachable_step (SetProps 2 Streaming None) _
              (reachable_step (SetProps 1 Streaming None) _
                 (reachable_mount _ _ _ _)))).
Defined.

(** X23. The two scrollers do not disturb each other: a trigger of the
    main scroller leaves the pending run of the reasoning scroller in
    place, and the reasoning effect leaves the pending run of the main
    scroller in place. *)
Theorem scrollers_are_independent status s :
  reachable s ->
  pendingReasoning (debouncedScroll status s) = pendingReasoning s
  /\ pendingScrolls (reasoningScrollEffect s) = pendingScrolls s.
Proof. intros Hreach. by apply pending_independent, reachable_sched_inv. Qed.

Lemma scrollers_are_independent_witness :
  let s := mount {[ 0%nat := [mkMessage "u1" User []] ]} 0 Streaming None in
  pendingReasoning (debouncedScroll Streaming s) = pendingReasoning s
  /\ pendingReasoning s <> [].
Proof.
  intros s. split; [|vm_compute; discriminate].
  apply (scrollers_are_independent Streaming s). apply reachable_mount.
Defined.

Lemma with_timers_same s : with_timers s (v_timers s) (v_nextHandle s) = s.
Proof. by destruct s. Qed.

(** A scheduled run fires at most once: a second turn of the event loop
    right after the first finds nothing due and changes nothing. *)
Lemma fireDue_idempotent s : fireDue (fireDue s) = fireDue s.
Proof.
  destruct (fireDue_spec s) as ((_ & _ & _ & _ & _ & _ & Hc) & Ht & _).
  set (s' := fireDue s) in *. unfold fireDue at 1.
  rewrite Hc.
  assert (List.filter (isDue (v_clock s)) (v_timers s') = []) as ->.
  { apply List_filter_nil. intros t. rewrite Ht.
    by intros [_ ?%negb_true_iff]%elem_of_List_filter. }
  assert (List.filter (fun t => negb (isDue (v_clock s) t)) (v_timers s')
          = v_timers s') as ->.
  { apply List_filter_id. intros t. rewrite Ht.
    by intros [_ ?]%elem_of_List_filter. }
  simpl. apply with_timers_same.
Qed.


Lemma pendingReasoning_autoScrollEffect s :
  sched_inv s -> pendingReasoning (autoScrollEffect s) = pendingReasoning s.
Proof.
  intros Hsched. unfold autoScrollEffect.
  destruct (v_messagesEndRef s); [|done].
  destruct (_ || _).
  - by destruct (pending_independent (v_status s) s Hsched) as [-> _].
  - by destruct (_ && _).
Qed.

Lemma step_initial_once e s :
  v_hasInitialScrolled s = true ->
  v_hasInitialScrolled (step e s) = true
  /\ v_instantScrolls (step e s) = v_instantScrolls s.
Proof.
  intros Hflag.
  destruct e as [messages status initialMessages | l content | dt |]; simpl;
    try done.
  - unfold setProps.
    set (s1 := withProps messages status initialMessages s).
    set (initial := negb (sameReference _ _)).
    set (auto := _ || _). set (reasoning := _ || _).
    destruct (runEffects_initial initial auto reasoning s1) as [-> ->].
    change (v_hasInitialScrolled s1) with (v_hasInitialScrolled s).
    rewrite Hflag. simpl. rewrite andb_false_r. simpl.
    change (v_instantScrolls s1) with (v_instantScrolls s). split; [done|lia].
  - destruct (fireDue_frame2 s) as (_ & _ & -> & _ & ->). done.
Qed.

(** X24. The instant scroll of an existing chat is one-shot. In every
    state the component can reach it has happened once when
    [hasInitialScrolled] is set and not at all when it is not; and once
    the flag is set no render, whatever initial messages it is handed,
    and no timer clears the flag or repeats the scroll. *)
Theorem initial_scroll_once s e :
  reachable s ->
  v_instantScrolls s = (if v_hasInitialScrolled s then 1%nat else 0%nat)
  /\ (v_instantScrolls (step e s) <= 1)%nat
  /\ (v_hasInitialScrolled s = true ->
      v_hasInitialScrolled (step e s) = true
      /\ v_instantScrolls (step e s) = 1%nat).
Proof.
  intros Hreach.
  pose proof (reachable_initialScroll_inv s Hreach) as Hinv.
  pose proof (reachable_initialScroll_inv _ (reachable_step e s Hreach)) as Hinv'.
  unfold initialScroll_inv in Hinv, Hinv'.
  split; [exact Hinv|]. split.
  - rewrite Hinv'. destruct (v_hasInitialScrolled (step e s)); lia.
  - intros Hflag. destruct (step_initial_once e s Hflag) as [-> ->].
    by rewrite Hinv, Hflag.
Qed.

(** A chat opened empty, handed its stored turns later: the scroll
    happens at that render, and a render with yet another array of
    initial messages does not repeat it. *)
Lemma initial_scroll_once_witness :
  let hi := mkMessage "u1" User [] in
  let opened := mount {[ 0%nat := [hi]; 1%nat := [hi; mkMessage "a1" Assistant []] ]}
                      0 Ready None in
  let s := run [SetProps 0 Ready (Some 0%nat); Elapse 5; EventLoopTurn] opened in
  v_instantScrolls opened = 0%nat
  /\ v_instantScrolls s = 1%nat
  /\ v_instantScrolls (step (SetProps 1 Ready (Some 1%nat)) s) = 1%nat.
Proof.
  intros hi opened s.
  destruct (initial_scroll_once s (SetProps 1 Ready (Some 1%nat)))
    as (Hcount & _ & Hagain).
  - exact (reachable_step EventLoopTurn _
             (reachable_step (Elapse 5) _
                (reachable_step (SetProps 0 Ready (Some 0%nat)) _
                   (reachable_mount _ _ _ _)))).
  - split; [vm_compute; reflexivity|]. split; [rewrite Hcount; reflexivity|].
    apply Hagain. vm_compute. reflexivity.
Defined.

(** A commit that leaves [hasInitialScrolled] unset has scrolled nothing
    at once. *)
Lemma runEffects_no_immediate_scroll (initial auto reasoning : bool) s1 :
  v_hasInitialScrolled (runEffects initial auto reasoning s1) = false ->
  v_smoothScrolls (runEffects initial auto reasoning s1) = v_smoothScrolls s1.
Proof.
  destruct (runEffects_initial initial auto reasoning s1) as [-> _].
  intros [Hflag Hscrolled]%orb_false_iff.
  rewrite runEffects_eq. cbv zeta. rewrite Hscrolled.
  set (s3 := if auto then autoScrollEffect s1 else s1).
  assert (v_smoothScrolls s3 = v_smoothScrolls s1) as H3.
  { subst s3. destruct auto; [|done]. unfold autoScrollEffect.
    destruct (v_messagesEndRef s1); [|done].
    destruct (_ || _).
    - destruct (debouncedScroll_frame (v_status s1) s1)
        as (_ & _ & _ & _ & _ & _ & _ & _ & _ & -> & _). done.
    - by rewrite Hflag. }
  clearbody s3. destruct reasoning; [|done].
  destruct (reasoningScrollEffect_frame s3)
    as (_ & _ & _ & _ & _ & _ & _ & _ & _ & -> & _). done.
Qed.

(** X25. As long as the initial scroll has not happened, as in a chat
    opened without initial messages, nothing scrolls the transcript at
    once: a first render that leaves [hasInitialScrolled] unset has
    scrolled nothing, and so has every later render that leaves it unset;
    only a timer callback, run by the event loop, scrolls it. *)
Theorem fresh_chat_scrolls_by_timer_only :
  (forall heap messages status initialMessages,
      v_hasInitialScrolled (mount heap messages status initialMessages) = false ->
      v_smoothScrolls (mount heap messages status initialMessages) = 0%nat)
  /\ (forall s e,
         e <> EventLoopTurn ->
         v_hasInitialScrolled (step e s) = false ->
         v_smoothScrolls (step e s) = v_smoothScrolls s).
Proof.
  split.
  - intros heap messages status initialMessages Hfresh. unfold mount in *.
    by rewrite runEffects_no_immediate_scroll.
  - intros s e He Hflag.
    destruct e as [messages status initialMessages | l content | dt |]; simpl;
      [|done|done|by destruct He].
    simpl in Hflag. unfold setProps in *.
    by rewrite runEffects_no_immediate_scroll.
Qed.

Lemma fresh_chat_scrolls_by_timer_only_witness :
  let opened := mount {[ 0%nat := [mkMessage "u1" User []];
                         1%nat := [mkMessage "u1" User [];
                                   mkMessage "a1" Assistant []] ]}
                      0 Submitted None in
  let s := run [SetProps 1 Streaming None; Elapse 100; EventLoopTurn] opened in
  v_smoothScrolls opened = 0%nat
  /\ v_smoothScrolls (step (SetProps 1 Ready None) s) = v_smoothScrolls s
  /\ v_smoothScrolls s = 1%nat.
Proof.
  intros opened s.
  destruct fresh_chat_scrolls_by_timer_only as [Hmount Hstep].
  split; [|split].
  - apply Hmount. vm_compute. reflexivity.
  - apply Hstep; [discriminate | vm_compute; reflexivity].
  - vm_compute. reflexivity.
Defined.

(** X26. Once the initial scroll has happened, a change of the status to
    ready or error scrolls the transcript at once and cancels nothing: a
    run of the main scroller that was pending stays pending. *)
Theorem settled_status_scrolls_at_once s status initialMessages :
  reachable s ->
  v_hasInitialScrolled s = true ->
  v_memoized s <> [] ->
  status <> v_status s ->
  status = Ready \/ status = Errored ->
  let s' := setProps (v_messages s) status initialMessages s in
  v_smoothScrolls s' = S (v_smoothScrolls s)
  /\ pendingScrolls s' = pendingScrolls s.
Proof.
  intros Hreach Hinit Hmemo Hchanged Hsettled. cbv zeta.
  pose proof (reachable_sched_inv s Hreach) as Hsched.
  assert (negb (Status_eqb status (v_status s)) = true) as Hst.
  { apply negb_true_iff, not_true_iff_false. by rewrite Status_eqb_eq. }
  destruct (setProps_settled (mkProps (v_messages s) status initialMessages) s Hsched)
    as [Hpending Hsmooth].
  { unfold isSettledTrigger, triggersScroll. simpl. rewrite Hst, orb_true_r.
    by destruct Hsettled as [-> | ->]. }
  unfold setPropsTo in Hpending, Hsmooth. simpl in Hpending, Hsmooth.
  split; [|exact Hpending]. rewrite Hsmooth.
  destruct (step_initial_once (SetProps (v_messages s) status initialMessages) s Hinit)
    as [Hflag _].
  simpl in Hflag. rewrite Hflag.
  assert (v_memoized (setProps (v_messages s) status initialMessages s)
          = v_memoized s) as ->.
  { unfold setProps.
    set (initial := negb (sameReference _ _)).
    set (auto := _ || _). set (reasoning := _ || _).
    destruct (runEffects_fields initial auto reasoning
                (withProps (v_messages s) status initialMessages s))
      as (_ & _ & _ & _ & -> & _).
    simpl. unfold memoizedFor. by rewrite Nat.eqb_refl. }
  assert ((0 <? js_length (v_memoized s)) = true) as ->.
  { apply Z.ltb_lt. unfold js_length. destruct (v_memoized s); [done|simpl; lia]. }
  simpl. lia.
Qed.

Lemma settled_status_scrolls_at_once_witness :
  let hi := mkMessage "u1" User [] in
  let s := mount {[ 0%nat := [hi] ]} 0 Streaming (Some 0%nat) in
  length (pendingScrolls s) = 1%nat
  /\ v_smoothScrolls (setProps (v_messages s) Ready (Some 0%nat) s)
     = S (v_smoothScrolls s)
  /\ pendingScrolls (setProps (v_messages s) Ready (Some 0%nat) s) = pendingScrolls s
  /\ v_smoothScrolls
       (run [SetProps 0 Ready (Some 0%nat); Elapse 100; EventLoopTurn] s) = 2%nat.
Proof.
  intros hi s.
  destruct (settled_status_scrolls_at_once s Ready (Some 0%nat))
    as [Hscroll Hpending].
  - apply reachable_mount.
  - vm_compute. reflexivity.
  - vm_compute. discriminate.
  - vm_compute. discriminate.
  - left. reflexivity.
  - split; [vm_compute; reflexivity|].
    split; [exact Hscroll|]. split; [exact Hpending|].
    vm_compute. reflexivity.
Defined.

(** X27. Every change of the messages array or of the status re-arms the
    reasoning scroller: after the render exactly one run is pending, it
    closes over the new array and is due after the delay of the new
    status. *)
Theorem setProps_rearms_reasoning messages status initialMessages s :
  reachable s ->
  messages <> v_messages s \/ status <> v_status s ->
  exists handle,
    pendingReasoning (setProps messages status initialMessages s)
    = [mkTimer handle (v_clock s + reasoningScrollDelay status)
               (ScrollReasoning messages)].
Proof.
  intros Hreach Hchanged.
  destruct (reachable_inv s Hreach) as (_ & Hh & _).
  pose proof (reachable_sched_inv s Hreach) as Hsched.
  unfold setProps.
  assert (negb (messages =? v_messages s)%nat || negb (Status_eqb status (v_status s))
          = true) as ->.
  { apply orb_true_iff. destruct Hchanged as [Hm|Hst].
    - left. by apply negb_true_iff, Nat.eqb_neq.
    - right. apply negb_true_iff, not_true_iff_false. by rewrite Status_eqb_eq. }
  set (s1 := withProps messages status initialMessages s).
  set (initial := negb (sameReference _ _)). set (auto := _ || _).
  rewrite runEffects_eq. cbv zeta.
  set (scrolled := initial && hasInitialMessages s1
                   && negb (v_hasInitialScrolled s1) && v_messagesEndRef s1).
  set (s2 := if scrolled then scrollIntoView_instant s1 else s1).
  assert (reasoning_handles s2 /\ sched_inv s2 /\ v_messages s2 = messages
          /\ v_status s2 = status /\ v_clock s2 = v_clock s)
    as (Hh2 & Hsched2 & Hm2 & Hst2 & Hc2)
    by (subst s2; destruct scrolled; done).
  clearbody s2.
  set (s3 := if auto then autoScrollEffect s2 else s2).
  assert (reasoning_handles s3 /\ sched_inv s3 /\ v_messages s3 = messages
          /\ v_status s3 = status /\ v_clock s3 = v_clock s)
    as (Hh3 & Hsched3 & Hm3 & Hst3 & Hc3).
  { subst s3. destruct auto; [|done].
    destruct (autoScrollEffect_inv s2) as (_ & A2 & _).
    destruct (autoScrollEffect_frame s2) as (_ & -> & -> & _ & _ & _ & _ & _ & -> & _).
    split; [by apply A2|]. split; [by apply autoScrollEffect_sched_inv|done]. }
  clearbody s3.
  assert (pendingReasoning (reasoningScrollEffect s3)
          = [mkTimer (v_nextHandle s3) (v_clock s + reasoningScrollDelay status)
                     (ScrollReasoning messages)]) as Hpending.
  { destruct (reasoningScrollEffect_timers s3) as [Ht _].
    unfold pendingReasoning.
    rewrite Ht, List.filter_app, Hm3, Hst3, Hc3. simpl.
    rewrite List_filter_nil; [done|].
    intros t [Hin Hne]%afterClearReasoning_timers.
    unfold isScrollToEnd. destruct (t_callback t) as [|l] eqn:Hcb; [done|].
    exfalso. apply Hne. by apply (Hh3 t l). }
  exists (v_nextHandle s3). destruct scrolled; [|done].
  rewrite pendingReasoning_autoScrollEffect; [done|].
  by apply (reasoningScrollEffect_sched_inv s3).
Qed.

Lemma setProps_rearms_reasoning_witness :
  let s := mount {[ 0%nat := [mkMessage "u1" User []] ]} 0 Submitted None in
  exists handle,
    pendingReasoning (setProps 0 Streaming None s)
    = [mkTimer handle (v_clock s + reasoningScrollDelay Streaming) (ScrollReasoning 0)].
Proof.
  intros s. apply (setProps_rearms_reasoning 0 Streaming None s).
  - apply reachable_mount.
  - right. vm_compute. discriminate.
Defined.

(** X28. A render with the same messages array, the same status and the
    same initial messages runs no effect: the state of the component is
    left exactly as it was. *)
Theorem setProps_unchanged_is_noop s :
  reachable s -> setProps (v_messages s) (v_status s) (v_initialMessages s) s = s.
Proof.
  intros Hend%reachable_endRef_inv. unfold endRef_inv in Hend.
  unfold setProps, withProps, memoizedFor.
  rewrite Nat.eqb_refl, sameReference_refl. simpl. rewrite Z.eqb_refl.
  assert (Status_eqb (v_status s) (v_status s) = true) as ->
    by (by apply Status_eqb_eq).
  simpl. unfold runEffects. rewrite <- Hend. by destruct s.
Qed.

Lemma setProps_unchanged_is_noop_witness :
  let s := mount {[ 0%nat := [mkMessage "u1" User []] ]} 0 Streaming None in
  setProps 0 Streaming None s = s.
Proof.
  intros s. apply (setProps_unchanged_is_noop s). apply reachable_mount.
Defined.

Lemma reachable_reasoningScrolls s : reachable s -> v_reasoningScrolls s = 0%nat.
Proof.
  induction 1 as [heap messages status initialMessages | e s Hreach IH].
  - unfold mount.
    destruct (runEffects_fields true true true
                (initialView heap messages status initialMessages))
      as (_ & _ & _ & _ & _ & _ & _ & _ & ->).
    done.
  - destruct e as [messages status initialMessages | l content | dt |]; simpl;
      try done.
    + unfold setProps.
      set (s1 := withProps messages status initialMessages s).
      set (initial := negb (sameReference _ _)).
      set (auto := _ || _). set (reasoning := _ || _).
      destruct (runEffects_fields initial auto reasoning s1)
        as (_ & _ & _ & _ & _ & _ & _ & _ & ->).
      exact IH.
    + rewrite fireDue_reasoning_unattached; [exact IH|].
      by apply reachable_reasoningRef_inv.
Qed.

(** X29. The reasoning panel is never scrolled by the component: the ref
    the scheduled run scrolls through is attached to no element, so in
    every state the component can reach it is unset and no run of the
    reasoning scroller has moved the panel, whatever the turns hold. *)
Theorem reasoning_panel_never_scrolls s :
  reachable s ->
  v_reasoningScrollRef s = false /\ v_reasoningScrolls s = 0%nat.
Proof.
  intros Hreach. split.
  - by apply reachable_reasoningRef_inv.
  - by apply reachable_reasoningScrolls.
Qed.

(** A turn that is still reasoning when the run of the reasoning scroller
    fires. *)
Lemma reasoning_panel_never_scrolls_witness :
  let thinking := mkPart "reasoning" (Some [104; 109]%N) in
  let turns := [mkMessage "a1" Assistant [thinking]] in
  let atFire := run [Elapse 150] (mount {[ 0%nat := turns ]} 0 Streaming None) in
  (0 <? js_length (activeReasoning (currentMessages atFire))) = true
  /\ length (List.filter (isDue (v_clock atFire)) (pendingReasoning atFire)) = 1%nat
  /\ v_reasoningScrolls (fireDue atFire) = 0%nat.
Proof.
  intros thinking turns atFire.
  split; [vm_compute; reflexivity|]. split; [vm_compute; reflexivity|].
  apply (reasoning_panel_never_scrolls (fireDue atFire)).
  apply (reachable_step EventLoopTurn atFire).
  apply (reachable_step (Elapse 150)). apply reachable_mount.
Defined.
